(** * nfs-mountpoint-check: a shallow embedding and its specification

    The program forks a worker that probes an NFS mount point with
    open/fstat/close and opendir/readdir/closedir, while the parent arms
    an alarm, waits for the worker and turns the way it ended into the
    exit status of the whole process.

    The C functions of [nfs-mountpoint-check.c] are written here as
    functions in a small monad that threads the program's globals and the
    operating system, and that records every library call made. *)

From Stdlib Require Import ZArith Lia Bool Ascii String List.
From stdpp Require Import base list.
Import ListNotations.

Local Open Scope string_scope.
Local Open Scope list_scope.
Local Open Scope Z_scope.

(** ** Constants *)

(** [#define ERRNO_MAX 256] *)
Definition ERRNO_MAX : Z := 256.

(** [static const int EUNKNOWN = 255;] *)
Definition EUNKNOWN : Z := 255.

(** [static const int CHECK_METHOD_STAT = 0x1;] and
    [static const int CHECK_METHOD_READDIR = 0x2;] *)
Definition CHECK_METHOD_STAT : Z := 1.
Definition CHECK_METHOD_READDIR : Z := 2.

(** Constants of the system headers, with their values on Linux
    (asm-generic/errno-base.h, asm-generic/errno.h, signal.h, fcntl.h,
    limits.h). *)
Definition EINTR : Z := 4.
Definition EINVAL : Z := 22.
Definition ERANGE : Z := 34.
Definition ETIMEDOUT : Z := 110.
Definition SIGKILL : Z := 9.
Definition SIGALRM : Z := 14.
Definition SA_RESTART : Z := 268435456.
Definition O_RDONLY : Z := 0.
Definition O_SYNC : Z := 1052672.
Definition INT_MIN : Z := -2147483648.
Definition INT_MAX : Z := 2147483647.
Definition LONG_MIN : Z := -9223372036854775808.
Definition LONG_MAX : Z := 9223372036854775807.

(** ** Library calls and the trace of a run *)

(** The calls the program makes into the C library and the kernel, with
    the arguments that matter.  A pointer (a [DIR *], a
    [struct dirent *]) is an integer, [0] for NULL.  The variadic
    arguments of the printing functions are left out: only the format
    string is kept, without its final newline. *)
Inductive call : Type :=
| c_open (path : string) (flags : Z)
| c_fstat (fd : Z)
| c_close (fd : Z)
| c_opendir (path : string)
| c_readdir (dirp : Z)
| c_closedir (dirp : Z)
| c_vfprintf (fmt : string)
| c_fflush
| c_printf (fmt : string)
| c_alarm (seconds : Z)
| c_waitpid (pid options : Z)
| c_kill (pid sig : Z)
| c_geteuid
| c_sigaction (signum flags : Z)
| c_fork.

(** What a call gives back: its return value, the [int] it stored through
    its pointer argument ([waitpid]'s [status]; unused by the other
    calls), and the value it leaves in [errno]. *)
Record reply : Type := Reply { rv : Z; out : Z; err : Z }.

(** The three ways the program stops itself. *)
Inductive halt : Type :=
| h_exit (code : Z)
| h__exit (code : Z)
| h_abort.

(** One entry of the trace: a call with its reply, or a call that does
    not return. *)
Inductive event : Type :=
| Call (c : call) (r : reply)
| Halt (h : halt).

(** The operating system as the program sees it: given the call, the
    current [errno] and its own state, the reply and its next state. *)
Class OS (W : Type) : Type := {
  os_sys : call -> Z -> W -> reply * W
}.

(** Why a run did not return to its caller. *)
Inductive stop : Type :=
| Exited (code : Z)      (* exit(code) *)
| QuickExited (code : Z) (* _exit(code) *)
| Aborted                (* abort() *)
| Undefined              (* behaviour the C standard leaves undefined *)
| StillWaiting.          (* the wait loop was cut off while still retrying *)

Inductive result (A : Type) : Type :=
| Ret (a : A)
| Stop (r : stop).
Arguments Ret {A} a.
Arguments Stop {A} r.

(** ** Integer conversions *)

(** [int] to [unsigned int], as in the call [alarm(timeout)]. *)
Definition to_unsigned (x : Z) : Z := x mod 4294967296.

(** [(signed char) x] for [x] in the range of [int]. *)
Definition to_signed_char (x : Z) : Z := (x + 128) mod 256 - 128.

(** [if (x)] on an [int]: true when [x] is not zero. *)
Definition truthy (x : Z) : bool := negb (x =? 0).

(** ** The wait status macros

    The macros of [<sys/wait.h>] come from the system headers, not from
    the repository; these are the definitions of glibc's
    [bits/waitstatus.h]. *)
Definition WEXITSTATUS (status : Z) : Z := Z.shiftr (Z.land status 65280) 8.
Definition WTERMSIG (status : Z) : Z := Z.land status 127.
Definition WIFEXITED (status : Z) : bool := WTERMSIG status =? 0.
Definition WIFSIGNALED (status : Z) : bool :=
  Z.shiftr (to_signed_char (Z.land status 127 + 1)) 1 >? 0.
Definition WIFSTOPPED (status : Z) : bool := Z.land status 255 =? 127.
Definition WIFCONTINUED (status : Z) : bool := status =? 65535.

(** How the kernel builds a status ([__W_EXITCODE], [__W_STOPCODE],
    [__W_CONTINUED], [__WCOREFLAG]). *)
Definition W_EXITCODE (ret sig : Z) : Z := Z.lor (Z.shiftl ret 8) sig.
Definition W_STOPCODE (sig : Z) : Z := Z.lor (Z.shiftl sig 8) 127.
Definition W_CONTINUED : Z := 65535.
Definition WCOREFLAG : Z := 128.

(** The ways a child can be reported by [waitpid]. *)
Inductive termination : Type :=
| ExitedWith (code : Z)                 (* exit status, 0..255 *)
| KilledBy (sig : Z) (core : bool)      (* signal number, 1..64 *)
| StoppedBy (sig : Z)
| Continued.

Definition encode_status (t : termination) : Z :=
  match t with
  | ExitedWith code => W_EXITCODE code 0
  | KilledBy sig core => Z.lor (W_EXITCODE 0 sig) (if core then WCOREFLAG else 0)
  | StoppedBy sig => W_STOPCODE sig
  | Continued => W_CONTINUED
  end.

Definition wf_termination (t : termination) : Prop :=
  match t with
  | ExitedWith code => 0 <= code <= 255
  | KilledBy sig _ => 1 <= sig <= 64
  | StoppedBy sig => 1 <= sig <= 64
  | Continued => True
  end.

(** The exit status a parent sees after [exit(code)]: the low eight
    bits. *)
Definition exit_status (code : Z) : Z := Z.land code 255.

(** ** String functions of the C library

    [strtok], [strcasecmp] and [strtol] belong to the C library, not to
    the repository; these follow their description in the C standard and
    POSIX, in the C locale. *)

Definition code_of (c : ascii) : Z := Z.of_N (N_of_ascii c).

Definition tolower (c : ascii) : Z :=
  let n := code_of c in
  if (65 <=? n) && (n <=? 90) then n + 32 else n.

(** [strcasecmp(a, b)]: the difference of the first two bytes that differ
    once lowered, [0] when there are none. *)
Fixpoint strcasecmp (a b : string) : Z :=
  match a, b with
  | EmptyString, EmptyString => 0
  | EmptyString, String d _ => 0 - tolower d
  | String c _, EmptyString => tolower c
  | String c a', String d b' =>
      if tolower c =? tolower d then strcasecmp a' b'
      else tolower c - tolower d
  end.

Fixpoint is_delim (delim : string) (c : ascii) : bool :=
  match delim with
  | EmptyString => false
  | String d delim' => Ascii.eqb c d || is_delim delim' c
  end.

(** The tokens that [strtok(s, delim)], [strtok(NULL, delim)], ... give
    in turn until NULL: the maximal non-empty runs of [s] without a
    delimiter.  [cur] is the token being read. *)
Fixpoint strtok_from (delim : string) (s : string) (cur : string) : list string :=
  match s with
  | EmptyString =>
      match cur with EmptyString => [] | _ => [cur] end
  | String c s' =>
      if is_delim delim c then
        match cur with
        | EmptyString => strtok_from delim s' EmptyString
        | _ => cur :: strtok_from delim s' EmptyString
        end
      else strtok_from delim s' (cur ++ String c EmptyString)%string
  end.

Definition strtok_all (s delim : string) : list string :=
  strtok_from delim s EmptyString.

Definition isspace (c : ascii) : bool :=
  let n := code_of c in (n =? 32) || ((9 <=? n) && (n <=? 13)).

Definition digit_of (c : ascii) : option Z :=
  let n := code_of c in
  if (48 <=? n) && (n <=? 57) then Some (n - 48) else None.

Fixpoint skip_space (s : string) : string :=
  match s with
  | String c s' => if isspace c then skip_space s' else s
  | EmptyString => s
  end.

(** The decimal digits at the front of [s], read onto [acc]: the value
    and how many digits there were. *)
Fixpoint read_digits (s : string) (acc : Z) (n : nat) : Z * nat :=
  match s with
  | String c s' =>
      match digit_of c with
      | Some d => read_digits s' (10 * acc + d) (S n)
      | None => (acc, n)
      end
  | EmptyString => (acc, n)
  end.

(** [strtol(s, &end, 10)] with [errno] at [e]: the value returned,
    whether [end] differs from [s], and [errno] afterwards.  White space
    is skipped, one sign is read, then the digits; with no digit nothing
    is converted and [end] is [s]; a value outside [long] is clamped and
    [errno] becomes [ERANGE]. *)
Definition strtol (s : string) (e : Z) : Z * bool * Z :=
  let s1 := skip_space s in
  let '(neg, s2) :=
    match s1 with
    | String "-" s' => (true, s')
    | String "+" s' => (false, s')
    | _ => (false, s1)
    end in
  let '(mag, n) := read_digits s2 0 O in
  match n with
  | O => (0, false, e)
  | S _ =>
      let v := if neg then - mag else mag in
      if v >? LONG_MAX then (LONG_MAX, true, ERANGE)
      else if v <? LONG_MIN then (LONG_MIN, true, ERANGE)
      else (v, true, e)
  end.

Section Program.

Context {W : Type} {os : OS W}.

(** The globals [verbosity], [child] and [errno], and the operating
    system. *)
Record pstate : Type := PState {
  verbosity : Z;
  child : Z;
  errno : Z;
  world : W
}.

(** A computation takes the state and gives a result, the new state and
    the events it produced, oldest first. *)
Definition M (A : Type) : Type := pstate -> result A * pstate * list event.

Definition ret {A} (a : A) : M A := fun s => (Ret a, s, []).

Definition bind {A B} (m : M A) (k : A -> M B) : M B :=
  fun s =>
    match m s with
    | (Ret a, s1, e1) =>
        match k a s1 with
        | (r, s2, e2) => (r, s2, e1 ++ e2)
        end
    | (Stop r, s1, e1) => (Stop r, s1, e1)
    end.

Notation "x <- m ;; k" := (bind m (fun x => k))
  (at level 100, m at next level, right associativity).
Notation "m ;;; k" := (bind m (fun _ => k))
  (at level 100, right associativity).

Definition get_verbosity : M Z := fun s => (Ret (verbosity s), s, []).
Definition set_verbosity (v : Z) : M unit :=
  fun s => (Ret tt, PState v (child s) (errno s) (world s), []).
Definition get_child : M Z := fun s => (Ret (child s), s, []).
Definition set_child (c : Z) : M unit :=
  fun s => (Ret tt, PState (verbosity s) c (errno s) (world s), []).
Definition get_errno : M Z := fun s => (Ret (errno s), s, []).
Definition set_errno (e : Z) : M unit :=
  fun s => (Ret tt, PState (verbosity s) (child s) e (world s), []).

(** A call: the operating system replies, [errno] is updated. *)
Definition sys_reply (c : call) : M reply :=
  fun s =>
    match os_sys c (errno s) (world s) with
    | (r, w) => (Ret r, PState (verbosity s) (child s) (err r) w, [Call c r])
    end.

Definition sys (c : call) : M Z := r <- sys_reply c ;; ret (rv r).

(** [waitpid(pid, &status, options)]: the return value and [status]. *)
Definition waitpid (pid options : Z) : M (Z * Z) :=
  r <- sys_reply (c_waitpid pid options) ;; ret (rv r, out r).

Definition halt_with {A} (h : halt) (r : stop) : M A :=
  fun s => (Stop r, s, [Halt h]).

Definition exit {A} (code : Z) : M A := halt_with (h_exit code) (Exited code).
Definition _exit {A} (code : Z) : M A :=
  halt_with (h__exit code) (QuickExited code).
Definition abort {A} : M A := halt_with h_abort Aborted.
Definition undefined {A} : M A := fun s => (Stop Undefined, s, []).

(** ** Logging ([DEFINE_LOG_FN]) *)

Definition log_fn (_value : Z) (fmt : string) : M Z :=
  v <- get_verbosity ;;
  if v >=? _value then
    r <- sys (c_vfprintf fmt) ;;
    sys c_fflush ;;;
    ret r
  else ret 0.

Definition error := log_fn 1.
Definition verbose := log_fn 2.
Definition debug := log_fn 3.

(** ** The probes *)

Definition check_mountpoint_readdir (path : string) : M Z :=
  dirp <- sys (c_opendir path) ;;
  if dirp =? 0 then
    errsave <- get_errno ;;
    debug "opendir failed: %s" ;;;
    ret errsave
  else
    dirent <- sys (c_readdir dirp) ;;
    if dirent =? 0 then
      errsave <- get_errno ;;
      debug "readdir failed: %s" ;;;
      sys (c_closedir dirp) ;;;
      ret errsave
    else
      r <- sys (c_closedir dirp) ;;
      if r <? 0 then
        errsave <- get_errno ;;
        debug "closedir failed: %s" ;;;
        ret errsave
      else ret 0.

Definition check_mountpoint_stat (path : string) : M Z :=
  fd <- sys (c_open path (Z.lor O_RDONLY O_SYNC)) ;;
  if fd <? 0 then
    errsave <- get_errno ;;
    debug "open failed: %s" ;;;
    ret errsave
  else
    r <- sys (c_fstat fd) ;;
    if r <? 0 then
      errsave <- get_errno ;;
      debug "fstat failed: %s" ;;;
      sys (c_close fd) ;;;
      ret errsave
    else
      r <- sys (c_close fd) ;;
      if r <? 0 then
        errsave <- get_errno ;;
        debug "close failed: %s" ;;;
        ret errsave
      else ret 0.

Definition check_mountpoint (path : string) (check_method : Z) : M Z :=
  (* the second [if] of the function, entered with the current [ret] *)
  let readdir_part (ret0 : Z) : M Z :=
    if truthy (Z.land check_method CHECK_METHOD_READDIR) then
      debug "before check_mountpoint_readdir" ;;;
      r <- check_mountpoint_readdir path ;;
      debug "check_mountpoint_readdir: ret=%d" ;;;
      if truthy r then
        debug "check method readdir failed: %d" ;;;
        ret r
      else ret r
    else ret ret0 in
  if truthy (Z.land check_method CHECK_METHOD_STAT) then
    debug "before check_mountpoint_stat" ;;;
    r <- check_mountpoint_stat path ;;
    debug "check_mountpoint_stat: ret=%d" ;;;
    if truthy r then
      debug "check method stat failed: %d" ;;;
      ret r
    else readdir_part r
  else readdir_part 0.

(** ** Waiting for the worker *)

(** The [while (1)] loop around [waitpid], cut off after [fuel] calls. *)
Fixpoint wait_loop (fuel : nat) : M Z :=
  match fuel with
  | O => fun s => (Stop StillWaiting, s, [])
  | S fuel' =>
      c <- get_child ;;
      r <- waitpid c 0 ;;
      if fst r <? 0 then
        e <- get_errno ;;
        if e =? EINTR then wait_loop fuel'
        else
          debug "waitpid failed: %s" ;;;
          exit 1
      else ret (snd r)
  end.

Definition wait_for_child (fuel : nat) (timeout : Z) : M Z :=
  sys (c_alarm (to_unsigned timeout)) ;;;
  status <- wait_loop fuel ;;
  sys (c_alarm 0) ;;;
  if WIFEXITED status then
    let r := WEXITSTATUS status in
    debug "child exited with ret = %d" ;;;
    ret r
  else if WIFSIGNALED status then
    let r := WTERMSIG status in
    debug "child exited from signal = %d" ;;;
    if r =? SIGKILL then
      debug "child was killed by timeout, mountpoint hung" ;;;
      ret ETIMEDOUT
    else
      debug "mountpoint in unknown status" ;;;
      ret EUNKNOWN
  else if WIFSTOPPED status then
    debug "child was stopped" ;;;
    ret EUNKNOWN
  else if WIFCONTINUED status then
    debug "child was continued" ;;;
    ret EUNKNOWN
  else ret EUNKNOWN.

(** ** The SIGALRM handler *)

Definition handle_sigalrm (signum : Z) : M unit :=
  c <- get_child ;;
  if c <=? 0 then ret tt
  else
    r <- sys (c_kill c SIGKILL) ;;
    if r <? 0 then _exit EUNKNOWN
    else ret tt.

(** ** Command line *)

Definition usage : M unit :=
  sys (c_printf "Usage: %s [options] <path>") ;;;
  sys (c_printf "") ;;;
  sys (c_printf "Check an NFS mount to determine whether it is operating correctly.") ;;;
  sys (c_printf "") ;;;
  sys (c_printf "Options:") ;;;
  sys (c_printf "-h, --help              display this help information") ;;;
  sys (c_printf "-i, --ignore-errno=x    ignore specific errno value") ;;;
  sys (c_printf "-m, --method=x          check method (comma separated: default=stat,readdir)") ;;;
  sys (c_printf "-t, --timeout=x         check timeout (seconds, default=2)") ;;;
  sys (c_printf "-v, --verbose           increase verbosity (min=0, default=1, max=3)") ;;;
  sys (c_printf "-q, --quiet             decrease verbosity (see above)") ;;;
  sys (c_printf "") ;;;
  ret tt.

(** The loop of [parse_check_method] over the tokens [strtok] gives. *)
Fixpoint parse_tokens (toks : list string) (check_method : Z) : M Z :=
  match toks with
  | [] => ret check_method
  | tok :: toks' =>
      if strcasecmp tok "stat" =? 0 then
        debug "check_method |= stat" ;;;
        parse_tokens toks' (Z.lor check_method CHECK_METHOD_STAT)
      else if strcasecmp tok "readdir" =? 0 then
        debug "check_method |= readdir" ;;;
        parse_tokens toks' (Z.lor check_method CHECK_METHOD_READDIR)
      else
        error "Unknown check method '%s'" ;;;
        exit EINVAL
  end.

(** A NULL string ([None]) given to [strtok] is undefined behaviour. *)
Definition parse_check_method (s : option string) : M Z :=
  match s with
  | None => undefined
  | Some s => parse_tokens (strtok_all s ",") 0
  end.

(** A NULL string ([None]) given to [strtol] is undefined behaviour. *)
Definition safe_atoi (s : option string) : M Z :=
  match s with
  | None => undefined
  | Some s =>
      e <- get_errno ;;
      let '(r, moved, e') := strtol s e in
      set_errno e' ;;;
      if moved && negb (e' =? ERANGE) && (r >=? INT_MIN) && (r <=? INT_MAX)
      then ret r
      else
        error "Unable to parse integer: %s" ;;;
        exit EINVAL
  end.

(** ** [main] *)

(** [int exitcode_map[ERRNO_MAX]]: a list of [ERRNO_MAX] integers.  An
    index outside the array is undefined behaviour. *)
Definition in_bounds (a : list Z) (i : Z) : bool :=
  (0 <=? i) && (i <? Z.of_nat (length a)).

Definition array_read (a : list Z) (i : Z) : M Z :=
  if in_bounds a i then
    match a !! Z.to_nat i with
    | Some v => ret v
    | None => undefined
    end
  else undefined.

Definition array_write (a : list Z) (i v : Z) : M (list Z) :=
  if in_bounds a i then ret (<[Z.to_nat i := v]> a) else undefined.

(** [for (i = from; i < from + n; i++) body], threading [a]. *)
Fixpoint for_loop {A} (n : nat) (i : Z) (body : Z -> A -> M A) (a : A) : M A :=
  match n with
  | O => ret a
  | S n' => a' <- body i a ;; for_loop n' (i + 1) body a'
  end.

(** The locals of [main] that option parsing sets. *)
Record locals : Type := Locals {
  exitcode_map : list Z;
  check_method_set : Z;
  check_method : Z;
  timeout : Z
}.

(** The body of the [switch (c)], for the option character [c] and the
    [optarg] that [getopt_long] returned. *)
Definition handle_option (c : ascii) (optarg : option string) (l : locals) : M locals :=
  if Ascii.eqb c "h" then
    usage ;;;
    exit 0
  else if Ascii.eqb c "i" then
    tmp <- safe_atoi optarg ;;
    m <- array_write (exitcode_map l) tmp 0 ;;
    ret (Locals m (check_method_set l) (check_method l) (timeout l))
  else if Ascii.eqb c "m" then
    cm <- parse_check_method optarg ;;
    ret (Locals (exitcode_map l) 1 cm (timeout l))
  else if Ascii.eqb c "t" then
    t <- safe_atoi optarg ;;
    ret (Locals (exitcode_map l) (check_method_set l) (check_method l) t)
  else if Ascii.eqb c "v" then
    v <- get_verbosity ;;
    (if v <=? 2 then set_verbosity (v + 1) else ret tt) ;;;
    ret l
  else if Ascii.eqb c "q" then
    v <- get_verbosity ;;
    (if v >=? 1 then set_verbosity (v - 1) else ret tt) ;;;
    ret l
  else if Ascii.eqb c "?" then
    ret l
  else abort.

(** The option loop, over the successive results of [getopt_long] up to
    its [-1]. *)
Fixpoint parse_options (opts : list (ascii * option string)) (l : locals) : M locals :=
  match opts with
  | [] => ret l
  | (c, optarg) :: opts' =>
      l' <- handle_option c optarg l ;;
      parse_options opts' l'
  end.

(** The first loop of [main]: [exitcode_map[i] = i] for every index.  The
    array is not initialised before the loop; it starts here as zeros and
    every entry is written. *)
Definition init_exitcode_map : M (list Z) :=
  for_loop (Z.to_nat ERRNO_MAX) 0 (fun i a => array_write a i i)
    (replicate (Z.to_nat ERRNO_MAX) 0).

(** The loop that reports the ignored codes. *)
Definition dump_ignored (exitcode_map : list Z) : M unit :=
  for_loop (Z.to_nat ERRNO_MAX) 0
    (fun i (_ : unit) =>
       v <- array_read exitcode_map i ;;
       if negb (v =? i) then debug "Exit status code %d ignored" ;;; ret tt
       else ret tt) tt.

(** The branch of [main] that runs in the child process. *)
Definition worker (path : string) (check_method : Z) : M Z :=
  r <- check_mountpoint path check_method ;;
  exit r.

(** The branch of [main] that runs in the parent process. *)
Definition parent (fuel : nat) (timeout : Z) (exitcode_map : list Z) : M Z :=
  r <- wait_for_child fuel timeout ;;
  debug "wait_for_child(%d) = %d" ;;;
  verbose "Check process exited with status code %d" ;;;
  code <- array_read exitcode_map r ;;
  exit code.

(** The default check method: all of them, when [-m] was not given. *)
Definition default_check_method (l : locals) : M locals :=
  if check_method_set l =? 0 then
    debug "No check method specified, using default: stat,readdir" ;;;
    ret (Locals (exitcode_map l) (check_method_set l)
           (Z.lor (Z.lor (check_method l) CHECK_METHOD_STAT)
              CHECK_METHOD_READDIR)
           (timeout l))
  else ret l.

(** What [main] does once the options are read. *)
Definition after_options (fuel : nat) (l : locals) (paths : list string) : M Z :=
  l <- default_check_method l ;;
  debug "Argument check_method = 0x%.8x" ;;;
  debug "Argument timeout = %d" ;;;
  debug "Argument verbosity = %d" ;;;
  dump_ignored (exitcode_map l) ;;;
  match paths with
  | [] =>
      error "No path was specified!" ;;;
      exit EINVAL
  | _ :: _ :: _ =>
      error "Too many paths were specified!" ;;;
      exit EINVAL
  | [path] =>
      uid <- sys c_geteuid ;;
      if uid >? 0 then
        error "This program must be run as root" ;;;
        exit EINVAL
      else
        r <- sys (c_sigaction SIGALRM SA_RESTART) ;;
        if r <? 0 then
          error "Unable to install SIGALRM handler: %s" ;;;
          e <- get_errno ;;
          exit e
        else
          verbose "About to check path: %s" ;;;
          sys c_fflush ;;;
          pid <- sys c_fork ;;
          set_child pid ;;;
          if pid <? 0 then
            errsave <- get_errno ;;
            error "Unable to create child process: %s" ;;;
            exit errsave
          else if pid =? 0 then worker path (check_method l)
          else parent fuel (timeout l) (exitcode_map l)
  end.

(** [main], for the options [opts] that [getopt_long] reports and the
    arguments [paths] left from [argv[optind]] on.  [timeout] starts
    at 2. *)
Definition main (fuel : nat) (opts : list (ascii * option string))
    (paths : list string) : M Z :=
  m <- init_exitcode_map ;;
  l <- parse_options opts (Locals m 0 0 2) ;;
  after_options fuel l paths.

End Program.

(** ** A scripted operating system

    The replies to give, in order, whatever the call; once they run out
    every call returns 0 and leaves [errno] alone. *)
#[export] Instance scripted : OS (list reply) := {|
  os_sys _ e w :=
    match w with
    | r :: w' => (r, w')
    | [] => (Reply 0 0 e, [])
    end
|}.

(** The state [main] starts in: [verbosity = 1], [child = 0],
    [errno = 0]. *)
Definition initial {W : Type} (w : W) : pstate := PState 1 0 0 w.

(** ** Reading a trace *)

(** Calls that only write to standard output. *)
Definition is_output (e : event) : bool :=
  match e with
  | Call (c_vfprintf _) _ | Call c_fflush _ | Call (c_printf _) _ => true
  | _ => false
  end.

(** The trace without the output calls: what was done to the file system
    and to processes, whatever the verbosity. *)
Definition quiet (evs : list event) : list event :=
  List.filter (fun e => negb (is_output e)) evs.

(** Calls of the directory-listing probe. *)
Definition is_readdir_call (e : event) : bool :=
  match e with
  | Call (c_opendir _) _ | Call (c_readdir _) _ | Call (c_closedir _) _ => true
  | _ => false
  end.

(** Calls of the status probe. *)
Definition is_stat_call (e : event) : bool :=
  match e with
  | Call (c_open _ _) _ | Call (c_fstat _) _ | Call (c_close _) _ => true
  | _ => false
  end.

(** A call that returned a negative value. *)
Definition failed (e : event) : bool :=
  match e with
  | Call _ r => rv r <? 0
  | Halt _ => false
  end.

(** On failure the call left a positive error number in [errno], as POSIX
    requires of [open], [fstat] and [close]. *)
Definition sets_errno (e : event) : Prop :=
  match e with
  | Call _ r => rv r < 0 -> 0 < err r
  | Halt _ => True
  end.

(** No call follows the first failed one. *)
Fixpoint stops_at_first_failure (evs : list event) : bool :=
  match evs with
  | [] => true
  | e :: evs' =>
      if failed e then match evs' with [] => true | _ => false end
      else stops_at_first_failure evs'
  end.

(** The runs of the status probe, without their output calls, and the
    value returned. *)
Inductive stat_run (path : string) : list event -> Z -> Prop :=
| stat_open_failed r1 :
    rv r1 < 0 ->
    stat_run path [Call (c_open path (Z.lor O_RDONLY O_SYNC)) r1] (err r1)
| stat_fstat_failed r1 r2 r3 :
    0 <= rv r1 -> rv r2 < 0 ->
    stat_run path
      [Call (c_open path (Z.lor O_RDONLY O_SYNC)) r1;
       Call (c_fstat (rv r1)) r2; Call (c_close (rv r1)) r3] (err r2)
| stat_close_failed r1 r2 r3 :
    0 <= rv r1 -> 0 <= rv r2 -> rv r3 < 0 ->
    stat_run path
      [Call (c_open path (Z.lor O_RDONLY O_SYNC)) r1;
       Call (c_fstat (rv r1)) r2; Call (c_close (rv r1)) r3] (err r3)
| stat_succeeded r1 r2 r3 :
    0 <= rv r1 -> 0 <= rv r2 -> 0 <= rv r3 ->
    stat_run path
      [Call (c_open path (Z.lor O_RDONLY O_SYNC)) r1;
       Call (c_fstat (rv r1)) r2; Call (c_close (rv r1)) r3] 0.

(** The runs of the directory-listing probe, likewise. *)
Inductive readdir_run (path : string) : list event -> Z -> Prop :=
| readdir_opendir_failed r1 :
    rv r1 = 0 ->
    readdir_run path [Call (c_opendir path) r1] (err r1)
| readdir_readdir_failed r1 r2 r3 :
    rv r1 <> 0 -> rv r2 = 0 ->
    readdir_run path
      [Call (c_opendir path) r1; Call (c_readdir (rv r1)) r2;
       Call (c_closedir (rv r1)) r3] (err r2)
| readdir_closedir_failed r1 r2 r3 :
    rv r1 <> 0 -> rv r2 <> 0 -> rv r3 < 0 ->
    readdir_run path
      [Call (c_opendir path) r1; Call (c_readdir (rv r1)) r2;
       Call (c_closedir (rv r1)) r3] (err r3)
| readdir_succeeded r1 r2 r3 :
    rv r1 <> 0 -> rv r2 <> 0 -> 0 <= rv r3 ->
    readdir_run path
      [Call (c_opendir path) r1; Call (c_readdir (rv r1)) r2;
       Call (c_closedir (rv r1)) r3] 0.

(** A stretch of the trace made of output calls only. *)
Definition only_output (evs : list event) : Prop :=
  Forall (fun e => is_output e = true) evs.

(** A stretch of the trace without any call of the directory-listing
    probe. *)
Definition no_readdir_call (evs : list event) : Prop :=
  Forall (fun e => is_readdir_call e = false) evs.

(** ** What the supervisor reports *)

(** The outcome of a supervised run, as the specification names it. *)
Inductive outcome : Type :=
| Success
| Failure (code : Z)
| TimedOut
| Indeterminate.

Definition outcome_code (o : outcome) : Z :=
  match o with
  | Success => 0
  | Failure code => code
  | TimedOut => ETIMEDOUT
  | Indeterminate => EUNKNOWN
  end.

(** The classification the specification asks for. *)
Definition classify (t : termination) : outcome :=
  match t with
  | ExitedWith code => if code =? 0 then Success else Failure code
  | KilledBy sig _ => if sig =? SIGKILL then TimedOut else Indeterminate
  | StoppedBy _ => Indeterminate
  | Continued => Indeterminate
  end.

(** The value [wait_for_child] computes from [status], its output left
    aside. *)
Definition status_code (status : Z) : Z :=
  if WIFEXITED status then WEXITSTATUS status
  else if WIFSIGNALED status then
    if WTERMSIG status =? SIGKILL then ETIMEDOUT else EUNKNOWN
  else EUNKNOWN.

(** A [waitpid] that was interrupted by a signal. *)
Definition interrupted (r : reply) : Prop := rv r < 0 /\ err r = EINTR.

Section Waiting.

Context {W : Type} {os : OS W}.

(** [interrupted_waits k s s' rs]: from [s], [k] calls of
    [waitpid(child, &status, 0)] in a row are interrupted, with replies
    [rs], and leave the program in [s']. *)
Inductive interrupted_waits : nat -> @pstate W -> @pstate W -> list reply -> Prop :=
| iw_none s : interrupted_waits O s s []
| iw_again k s r w s' rs :
    os_sys (c_waitpid (child s) 0) (errno s) (world s) = (r, w) ->
    interrupted r ->
    interrupted_waits k (PState (verbosity s) (child s) (err r) w) s' rs ->
    interrupted_waits (S k) s s' (r :: rs).

End Waiting.

(** Whether a call may be made from a signal handler: the functions
    POSIX lists as async-signal-safe (signal-safety(7)).  The directory
    and stdio functions and [exit] are not on the list. *)
Definition async_signal_safe (e : event) : bool :=
  match e with
  | Call c _ =>
      match c with
      | c_open _ _ | c_fstat _ | c_close _ | c_alarm _ | c_waitpid _ _
      | c_kill _ _ | c_geteuid | c_sigaction _ _ | c_fork => true
      | c_opendir _ | c_readdir _ | c_closedir _
      | c_vfprintf _ | c_fflush | c_printf _ => false
      end
  | Halt (h__exit _) | Halt h_abort => true
  | Halt (h_exit _) => false
  end.

(** The array as the first loop of [main] leaves it. *)
Definition identity_map : list Z := map Z.of_nat (seq 0 (Z.to_nat ERRNO_MAX)).

(** The check method a token of [-m] names, if any. *)
Definition method_of_token (tok : string) : option Z :=
  if strcasecmp tok "stat" =? 0 then Some CHECK_METHOD_STAT
  else if strcasecmp tok "readdir" =? 0 then Some CHECK_METHOD_READDIR
  else None.

(** The bits of the check methods that [toks] name, added to [acc]. *)
Fixpoint methods_of_tokens (toks : list string) (acc : Z) : Z :=
  match toks with
  | [] => acc
  | tok :: toks' =>
      match method_of_token tok with
      | Some m => methods_of_tokens toks' (Z.lor acc m)
      | None => methods_of_tokens toks' acc
      end
  end.

(** The number written at the front of [s]: white space, one optional
    sign, then decimal digits, as many as there are; [None] without a
    digit there.  The value is not bounded. *)
Definition front_number (s : string) : option Z :=
  let s1 := skip_space s in
  let '(neg, s2) :=
    match s1 with
    | String "-" s' => (true, s')
    | String "+" s' => (false, s')
    | _ => (false, s1)
    end in
  let '(mag, n) := read_digits s2 0 O in
  match n with
  | O => None
  | S _ => Some (if neg then - mag else mag)
  end.

(** Whether [safe_atoi] keeps what [strtol] gave. *)
Definition accepted (r : Z * bool * Z) : bool :=
  let '(v, moved, e) := r in
  moved && negb (e =? ERANGE) && (v >=? INT_MIN) && (v <=? INT_MAX).

(** A stretch of the trace in which nothing is called but output
    functions and, to end the process, [exit], [_exit] or [abort]: no
    file, directory or process is touched. *)
Definition before_probing (evs : list event) : Prop :=
  Forall (fun e => is_output e = true \/ exists h, e = Halt h) evs.

(** ** Which probes run, and the handles they hold *)

(** A failed call of the directory-listing probe: NULL from [opendir] or
    [readdir], a negative value from [closedir]. *)
Definition readdir_failed (e : event) : bool :=
  match e with
  | Call (c_opendir _) r | Call (c_readdir _) r => rv r =? 0
  | Call (c_closedir _) r => rv r <? 0
  | _ => false
  end.

(** On failure the call left a positive error number in [errno]. *)
Definition readdir_sets_errno (e : event) : Prop :=
  readdir_failed e = true ->
  match e with
  | Call _ r => 0 < err r
  | Halt _ => True
  end.

(** What the second half of [check_mountpoint] does for the check method
    [m]: the directory-listing probe if selected, nothing otherwise. *)
Definition readdir_part (path : string) (m : Z) (er : list event) (v : Z) : Prop :=
  if truthy (Z.land m CHECK_METHOD_READDIR) then readdir_run path er v
  else er = [] /\ v = 0.

(** The runs of [check_mountpoint] for the check method [m], without
    their output calls: the status probe if selected, then, unless it
    failed, the directory-listing probe if selected. *)
Definition orchestrated (path : string) (m : Z) (evs : list event) (v : Z) : Prop :=
  exists es er,
    evs = es ++ er /\
    if truthy (Z.land m CHECK_METHOD_STAT) then
      exists vs,
        stat_run path es vs /\
        if vs =? 0 then readdir_part path m er v else er = [] /\ v = vs
    else es = [] /\ readdir_part path m er v.

(** A file descriptor or a directory stream. *)
Inductive handle : Type :=
| Fd (fd : Z)
| Dir (dirp : Z).

Definition handle_eqb (a b : handle) : bool :=
  match a, b with
  | Fd x, Fd y | Dir x, Dir y => x =? y
  | _, _ => false
  end.

(** Release [h] from [held]; [None] when it is not held. *)
Fixpoint release (h : handle) (held : list handle) : option (list handle) :=
  match held with
  | [] => None
  | h' :: held' =>
      if handle_eqb h h' then Some held'
      else option_map (cons h') (release h held')
  end.

(** The handles held after the events [evs], starting with [held]: a
    successful [open] or [opendir] adds one, [close] and [closedir]
    release theirs, whatever they return.  [None] when a handle is
    released that is not held. *)
Fixpoint handles_after (evs : list event) (held : list handle) : option (list handle) :=
  match evs with
  | [] => Some held
  | Call (c_open _ _) r :: evs' =>
      handles_after evs' (if rv r <? 0 then held else Fd (rv r) :: held)
  | Call (c_opendir _) r :: evs' =>
      handles_after evs' (if rv r =? 0 then held else Dir (rv r) :: held)
  | Call (c_close fd) _ :: evs' =>
      match release (Fd fd) held with
      | Some held' => handles_after evs' held'
      | None => None
      end
  | Call (c_closedir dirp) _ :: evs' =>
      match release (Dir dirp) held with
      | Some held' => handles_after evs' held'
      | None => None
      end
  | _ :: evs' => handles_after evs' held
  end.

(** ** What the options leave behind *)

(** [verbosity] after the option character [c]: [-v] raises it up to 3,
    [-q] lowers it down to 0. *)
Definition verbosity_step (v : Z) (c : ascii) : Z :=
  if Ascii.eqb c "v" then (if v <=? 2 then v + 1 else v)
  else if Ascii.eqb c "q" then (if v >=? 1 then v - 1 else v)
  else v.

Definition verbosity_after (opts : list (ascii * option string)) (v : Z) : Z :=
  fold_left (fun v o => verbosity_step v (fst o)) opts v.


(** The numbers that the [-i] options of [opts] give. *)
Fixpoint ignored_codes (opts : list (ascii * option string)) : list Z :=
  match opts with
  | [] => []
  | (c, optarg) :: opts' =>
      match (if Ascii.eqb c "i" then optarg else None) with
      | Some str =>
          match front_number str with
          | Some z => z :: ignored_codes opts'
          | None => ignored_codes opts'
          end
      | None => ignored_codes opts'
      end
  end.

(** Whether [tok] names a check method. *)
Definition known_method (tok : string) : bool :=
  match method_of_token tok with
  | Some _ => true
  | None => false
  end.

(** A call of [printf]. *)
Definition is_printf (e : event) : bool :=
  match e with
  | Call (c_printf _) _ => true
  | _ => false
  end.

(** A call of [waitpid] is on the process [pid]; any other event
    passes. *)
Definition waits_on (pid : Z) (e : event) : Prop :=
  match e with
  | Call (c_waitpid p _) _ => p = pid
  | _ => True
  end.

(** ** The parts of [main] after the options *)

Section Supervising.

Context {W : Type} {os : OS W}.

Local Notation "x <- m ;; k" := (bind m (fun x => k))
  (at level 100, m at next level, right associativity).
Local Notation "m ;;; k" := (bind m (fun _ => k))
  (at level 100, right associativity).

(** The locals once the default check method is applied. *)
Definition with_default_method (l : locals) : locals :=
  if check_method_set l =? 0 then
    Locals (exitcode_map l) (check_method_set l)
      (Z.lor (Z.lor (check_method l) CHECK_METHOD_STAT) CHECK_METHOD_READDIR)
      (timeout l)
  else l.

(** [main] from the check that it runs as root on, for the one path
    given: the handler is installed, the process forks, the child probes
    and the parent waits. *)
Definition supervise (fuel : nat) (l : locals) (path : string) : M Z :=
  uid <- sys c_geteuid ;;
  if uid >? 0 then
    error "This program must be run as root" ;;;
    exit EINVAL
  else
    r <- sys (c_sigaction SIGALRM SA_RESTART) ;;
    if r <? 0 then
      error "Unable to install SIGALRM handler: %s" ;;;
      e <- get_errno ;;
      exit e
    else
      verbose "About to check path: %s" ;;;
      sys c_fflush ;;;
      pid <- sys c_fork ;;
      set_child pid ;;;
      if pid <? 0 then
        errsave <- get_errno ;;
        error "Unable to create child process: %s" ;;;
        exit errsave
      else if pid =? 0 then worker path (check_method l)
      else parent fuel (timeout l) (exitcode_map l).

(** [main] from the check of the number of paths on. *)
Definition dispatch (fuel : nat) (l : locals) (paths : list string) : M Z :=
  match paths with
  | [] =>
      error "No path was specified!" ;;;
      exit EINVAL
  | _ :: _ :: _ =>
      error "Too many paths were specified!" ;;;
      exit EINVAL
  | [path] => supervise fuel l path
  end.

End Supervising.

(** ** What a computation keeps and what it calls *)

(** Calls on the file system: those of the two probes. *)
Definition is_filesystem_call (e : event) : bool :=
  is_stat_call e || is_readdir_call e.

(** The process ending itself with [exit]. *)
Definition is_exit (e : event) : bool :=
  match e with
  | Halt (h_exit _) => true
  | _ => false
  end.

(** The calls the parent makes while it supervises: the timer, the wait,
    its output and its [exit]. *)
Definition supervisor_call (e : event) : bool :=
  match e with
  | Call (c_alarm _) _ | Call (c_waitpid _ _) _ => true
  | _ => is_output e || is_exit e
  end.

Section Keeping.

Context {W : Type} {os : OS W}.

(** [keeps I P m]: started with [verbosity] and [child] satisfying [I],
    the computation [m] leaves them satisfying [I], however it ends, and
    every event it produces satisfies [P]. *)
Definition keeps {A} (I : Z -> Z -> Prop) (P : event -> Prop) (m : M A) : Prop :=
  forall (s s' : @pstate W) r evs,
    I (verbosity s) (child s) ->
    m s = (r, s', evs) ->
    I (verbosity s') (child s') /\ Forall P evs.

(** What [keeps I P] asks of a logging function of level [lvl]: its two
    calls satisfy [P] whenever [I] lets it print. *)
Definition may_log (I : Z -> Z -> Prop) (P : event -> Prop) (lvl : Z) : Prop :=
  forall v c, I v c -> lvl <= v ->
    forall fmt r, P (Call (c_vfprintf fmt) r) /\ P (Call c_fflush r).

End Keeping.

(** ** Running computations *)

Section Running.

Context {W : Type} {os : OS W}.

Lemma bind_run {A B} (m : M A) (k : A -> M B) (s s1 : @pstate W) a e1 :
  m s = (Ret a, s1, e1) ->
  bind m k s = (let '(r, s2, e2) := k a s1 in (r, s2, e1 ++ e2)).
Proof. intros H. unfold bind. rewrite H. reflexivity. Qed.

Lemma bind_stop {A B} (m : M A) (k : A -> M B) (s s1 : @pstate W) r e1 :
  m s = (Stop r, s1, e1) ->
  bind m k s = (Stop r, s1, e1).
Proof. intros H. unfold bind. rewrite H. reflexivity. Qed.

Lemma sys_run (c : call) (s : @pstate W) :
  sys c s =
  (Ret (rv (fst (os_sys c (errno s) (world s)))),
   PState (verbosity s) (child s)
     (err (fst (os_sys c (errno s) (world s))))
     (snd (os_sys c (errno s) (world s))),
   [Call c (fst (os_sys c (errno s) (world s)))]).
Proof.
  unfold sys, sys_reply, bind, ret.
  destruct (os_sys c (errno s) (world s)) as [r w]. reflexivity.
Qed.

Lemma waitpid_run (pid options : Z) (s : @pstate W) :
  waitpid pid options s =
  (Ret (rv (fst (os_sys (c_waitpid pid options) (errno s) (world s))),
        out (fst (os_sys (c_waitpid pid options) (errno s) (world s)))),
   PState (verbosity s) (child s)
     (err (fst (os_sys (c_waitpid pid options) (errno s) (world s))))
     (snd (os_sys (c_waitpid pid options) (errno s) (world s))),
   [Call (c_waitpid pid options)
      (fst (os_sys (c_waitpid pid options) (errno s) (world s)))]).
Proof.
  unfold waitpid, sys_reply, bind, ret.
  destruct (os_sys _ (errno s) (world s)) as [r w]. reflexivity.
Qed.

Lemma bind_assoc {A B C} (m : M A) (k : A -> M B) (k' : B -> M C)
    (s : @pstate W) :
  bind (bind m k) k' s = bind m (fun a => bind (k a) k') s.
Proof.
  unfold bind.
  destruct (m s) as [[[a|r] s1] e1]; [|reflexivity].
  destruct (k a s1) as [[[b|r] s2] e2]; [|reflexivity].
  destruct (k' b s2) as [[r s3] e3]. rewrite app_assoc. reflexivity.
Qed.

Lemma bind_ext {A B} (m : M A) (k k' : A -> M B) (s : @pstate W) :
  (forall a s1, k a s1 = k' a s1) ->
  bind m k s = bind m k' s.
Proof.
  intros H. unfold bind.
  destruct (m s) as [[[a|r] s1] e1]; [|reflexivity].
  rewrite H. reflexivity.
Qed.

Lemma run_nil_l {A} (x : result A * @pstate W * list event) :
  (let '(r, s2, e2) := x in (r, s2, [] ++ e2)) = x.
Proof. destruct x as [[r s2] e2]. reflexivity. Qed.

Lemma bind_cong_l {A B} (m m' : M A) (k : A -> M B) (s : @pstate W) :
  m s = m' s -> bind m k s = bind m' k s.
Proof. intros H. unfold bind. rewrite H. reflexivity. Qed.

Lemma quiet_app (a b : list event) : quiet (a ++ b) = quiet a ++ quiet b.
Proof. apply List.filter_app. Qed.

(** A logging function returns, keeps [verbosity] and [child], and adds
    only output calls; below its level it does nothing at all. *)
Lemma log_fn_run (lvl : Z) (fmt : string) (s : @pstate W) :
  exists v e w evs,
    log_fn lvl fmt s = (Ret v, PState (verbosity s) (child s) e w, evs) /\
    quiet evs = [] /\
    Forall (fun ev => is_output ev = true) evs /\
    (verbosity s < lvl -> e = errno s /\ w = world s /\ evs = []).
Proof.
  unfold log_fn.
  rewrite (bind_run get_verbosity _ s s (verbosity s) []) by reflexivity.
  destruct (verbosity s >=? lvl) eqn:Hv.
  - rewrite (bind_run _ _ _ _ _ _ (sys_run _ _)).
    rewrite (bind_run _ _ _ _ _ _ (sys_run _ _)).
    cbn. do 4 eexists. split; [reflexivity|].
    split; [reflexivity|]. split; [repeat constructor|]. lia.
  - destruct s; cbn. exists 0, errno0, world0, []. repeat split; constructor.
Qed.

Lemma debug_run (fmt : string) (s : @pstate W) :
  exists v e w evs,
    debug fmt s = (Ret v, PState (verbosity s) (child s) e w, evs) /\
    quiet evs = [] /\
    Forall (fun ev => is_output ev = true) evs /\
    (verbosity s < 3 -> e = errno s /\ w = world s /\ evs = []).
Proof. apply log_fn_run. Qed.

End Running.

(** One step of a run: a call, a read of [errno], a [debug]. *)
Ltac run_sys :=
  rewrite (bind_run _ _ _ _ _ _ (sys_run _ _)); cbv beta;
  cbn [errno verbosity child world].

Ltac run_errno :=
  match goal with
  | |- context [bind get_errno ?k ?s] =>
      rewrite (bind_run get_errno k s s (errno s) [] eq_refl); cbv beta;
      cbn [errno verbosity child world]
  end.

Ltac run_debug :=
  match goal with
  | |- context [bind (debug ?f) ?k ?s] =>
      let H := fresh "Hlog" in
      let Q := fresh "Hquiet" in
      let O := fresh "Hout" in
      let N := fresh "Hsilent" in
      destruct (debug_run f s) as (? & ? & ? & ? & H & Q & O & N);
      rewrite (bind_run (debug f) k s _ _ _ H); cbv beta;
      cbn [errno verbosity child world] in *
  end.

Ltac quiet_simpl :=
  rewrite ?quiet_app;
  repeat match goal with H : quiet ?x = [] |- _ => rewrite H end;
  cbn [quiet List.filter is_output negb app].

(** Close a goal [exists v s' evs, run = (Ret v, s', evs) /\ ...] once the
    run has been reduced to a value. *)
Ltac finish_run :=
  unfold ret; cbn [fst snd];
  do 3 eexists; split; [reflexivity|];
  cbn [errno verbosity child world]; quiet_simpl.

Ltac run_log :=
  match goal with
  | |- context [bind (debug ?f) ?k ?s] => run_debug
  | |- context [bind (error ?f) ?k ?s] =>
      let H := fresh "Hlog" in
      let Q := fresh "Hquiet" in
      let O := fresh "Hout" in
      let N := fresh "Hsilent" in
      destruct (log_fn_run 1 f s) as (? & ? & ? & ? & H & Q & O & N);
      rewrite (bind_run (error f) k s _ _ _ H); cbv beta;
      cbn [errno verbosity child world] in *
  | |- context [bind (verbose ?f) ?k ?s] =>
      let H := fresh "Hlog" in
      let Q := fresh "Hquiet" in
      let O := fresh "Hout" in
      let N := fresh "Hsilent" in
      destruct (log_fn_run 2 f s) as (? & ? & ? & ? & H & Q & O & N);
      rewrite (bind_run (verbose f) k s _ _ _ H); cbv beta;
      cbn [errno verbosity child world] in *
  end.

Section Probes.

Context {W : Type} {os : OS W}.

Lemma check_mountpoint_stat_run (path : string) (s : @pstate W) :
  exists v s' evs,
    check_mountpoint_stat path s = (Ret v, s', evs) /\
    verbosity s' = verbosity s /\ child s' = child s /\
    stat_run path (quiet evs) v.
Proof.
  unfold check_mountpoint_stat.
  run_sys.
  destruct (os_sys _ (errno s) (world s)) as [r1 w1]; cbn [fst snd].
  destruct (rv r1 <? 0) eqn:H1.
  - run_errno. run_debug. finish_run.
    repeat split. constructor. lia.
  - run_sys.
    destruct (os_sys (c_fstat _) _ _) as [r2 w2]; cbn [fst snd].
    destruct (rv r2 <? 0) eqn:H2.
    + run_errno. run_debug. run_sys.
      destruct (os_sys (c_close _) _ _) as [r3 w3]; cbn [fst snd].
      finish_run. repeat split. constructor; lia.
    + run_sys.
      destruct (os_sys (c_close _) _ _) as [r3 w3]; cbn [fst snd].
      destruct (rv r3 <? 0) eqn:H3.
      * run_errno. run_debug. finish_run.
        repeat split. constructor; lia.
      * finish_run. repeat split. constructor; lia.
Qed.

Lemma check_mountpoint_readdir_run (path : string) (s : @pstate W) :
  exists v s' evs,
    check_mountpoint_readdir path s = (Ret v, s', evs) /\
    verbosity s' = verbosity s /\ child s' = child s /\
    readdir_run path (quiet evs) v.
Proof.
  unfold check_mountpoint_readdir.
  run_sys.
  destruct (os_sys _ (errno s) (world s)) as [r1 w1]; cbn [fst snd].
  destruct (rv r1 =? 0) eqn:H1.
  - run_errno. run_debug. finish_run.
    repeat split. constructor. lia.
  - run_sys.
    destruct (os_sys (c_readdir _) _ _) as [r2 w2]; cbn [fst snd].
    destruct (rv r2 =? 0) eqn:H2.
    + run_errno. run_debug. run_sys.
      destruct (os_sys (c_closedir _) _ _) as [r3 w3]; cbn [fst snd].
      finish_run. repeat split. constructor; lia.
    + run_sys.
      destruct (os_sys (c_closedir _) _ _) as [r3 w3]; cbn [fst snd].
      destruct (rv r3 <? 0) eqn:H3.
      * run_errno. run_debug. finish_run.
        repeat split. constructor; lia.
      * finish_run. repeat split. constructor; lia.
Qed.

Lemma truthy_true (x : Z) : truthy x = true <-> x <> 0.
Proof. unfold truthy. destruct (x =? 0) eqn:H; cbn; split; intros; try lia; congruence. Qed.

Lemma truthy_false (x : Z) : truthy x = false <-> x = 0.
Proof. unfold truthy. destruct (x =? 0) eqn:H; cbn; split; intros; try lia; congruence. Qed.

Lemma only_output_app (a b : list event) :
  only_output a -> only_output b -> only_output (a ++ b).
Proof. intros Ha Hb. apply Forall_app. split; assumption. Qed.

Lemma no_readdir_call_app (a b : list event) :
  no_readdir_call a -> no_readdir_call b -> no_readdir_call (a ++ b).
Proof. intros Ha Hb. apply Forall_app. split; assumption. Qed.

Lemma same_state (s : @pstate W) e w :
  e = errno s /\ w = world s ->
  PState (verbosity s) (child s) e w = s.
Proof. intros [-> ->]. destruct s; reflexivity. Qed.

Lemma only_output_quiet (evs : list event) : only_output evs -> quiet evs = [].
Proof.
  induction 1 as [|e evs He _ IH]; [reflexivity|].
  cbn. rewrite He. exact IH.
Qed.

Lemma only_output_no_readdir (evs : list event) :
  only_output evs -> no_readdir_call evs.
Proof.
  unfold only_output, no_readdir_call. intros H.
  eapply List.Forall_impl; [|exact H].
  intros [[] r|h]; cbn; congruence.
Qed.

Lemma quiet_no_readdir (evs : list event) :
  no_readdir_call (quiet evs) -> no_readdir_call evs.
Proof.
  unfold no_readdir_call. induction evs as [|e evs IH]; [constructor|].
  cbn. destruct (is_output e) eqn:He; cbn; intros H.
  - constructor; [|auto]. destruct e as [[] r|h]; cbn in *; congruence.
  - inversion H; subst. constructor; auto.
Qed.

Lemma stat_run_no_readdir (path : string) (evs : list event) (v : Z) :
  stat_run path (quiet evs) v -> no_readdir_call evs.
Proof.
  intros H. apply quiet_no_readdir.
  inversion H; repeat constructor.
Qed.

(** C4.  With both probes selected, [check_mountpoint] first runs the
    status probe ([es], after the output [l0]).  If that probe returns a
    non-zero [vs], the function returns [vs] at once: what follows is
    output only and the whole trace holds no call of the directory-listing
    probe.  Otherwise the directory-listing probe runs next and its value
    is returned.  So [0] is returned only if both probes returned [0]. *)
Theorem check_mountpoint_short_circuit (path : string) (check_method : Z)
    (s : @pstate W) :
  truthy (Z.land check_method CHECK_METHOD_STAT) = true ->
  truthy (Z.land check_method CHECK_METHOD_READDIR) = true ->
  exists v s' evs l0 s0 vs s1 es rest,
    check_mountpoint path check_method s = (Ret v, s', evs) /\
    evs = l0 ++ es ++ rest /\ only_output l0 /\
    check_mountpoint_stat path s0 = (Ret vs, s1, es) /\
    (verbosity s < 3 -> s0 = s) /\
    (vs <> 0 -> v = vs /\ only_output rest /\ no_readdir_call evs) /\
    (vs = 0 ->
       exists l1 s2 s3 er l2,
         rest = l1 ++ er ++ l2 /\ only_output l1 /\ only_output l2 /\
         check_mountpoint_readdir path s2 = (Ret v, s3, er)) /\
    (v = 0 ->
       vs = 0 /\
       exists s2 s3 er, check_mountpoint_readdir path s2 = (Ret 0, s3, er)).
Proof.
  intros Hstat Hreaddir. unfold check_mountpoint.
  rewrite Hstat, Hreaddir.
  run_debug.
  match goal with
  | |- context [bind (check_mountpoint_stat path) ?k ?s0] =>
      destruct (check_mountpoint_stat_run path s0)
        as (vs & s1 & es & Hs & Hv1 & Hc1 & Hsr);
      rewrite (bind_run _ k s0 _ _ _ Hs); cbv beta
  end.
  run_debug.
  destruct (truthy vs) eqn:Hvs.
  - run_debug. unfold ret. cbv beta iota.
    do 9 eexists. split; [reflexivity|].
    split; [reflexivity|]. split; [assumption|].
    split; [exact Hs|].
    apply truthy_true in Hvs.
    split; [intros Hlt; apply same_state; apply Hsilent in Hlt; tauto|].
    split; [|split; [intros; contradiction | intros; contradiction]].
    intros _. split; [reflexivity|].
    assert (Hrest : only_output (x6 ++ x10 ++ []))
      by (repeat apply only_output_app; try assumption; constructor).
    split; [exact Hrest|].
    repeat apply no_readdir_call_app.
    + apply only_output_no_readdir; assumption.
    + eapply stat_run_no_readdir; eassumption.
    + apply only_output_no_readdir in Hrest.
      unfold no_readdir_call in Hrest. rewrite !Forall_app in Hrest. tauto.
    + apply only_output_no_readdir in Hrest.
      unfold no_readdir_call in Hrest. rewrite !Forall_app in Hrest. tauto.
    + constructor.
  - apply truthy_false in Hvs. subst vs.
    run_debug.
    match goal with
    | |- context [bind (check_mountpoint_readdir path) ?k ?s0] =>
        destruct (check_mountpoint_readdir_run path s0)
          as (vr & s3 & er & Hr & Hv3 & Hc3 & Hrr);
        rewrite (bind_run _ k s0 _ _ _ Hr); cbv beta
    end.
    run_debug.
    assert (Hend : exists l2 s',
      (if truthy vr
       then bind (debug "check method readdir failed: %d") (fun _ => ret vr)
       else ret vr)
        (PState (verbosity s3) (child s3) x12 x13) = (Ret vr, s', l2) /\
      only_output l2).
    { destruct (truthy vr).
      - run_debug. unfold ret. cbv beta iota. do 2 eexists.
        split; [reflexivity|]. apply only_output_app; [assumption|constructor].
      - unfold ret. do 2 eexists. split; [reflexivity|]. constructor. }
    destruct Hend as (l2 & s' & Hend & Hl2). rewrite Hend.
    cbv beta iota.
    do 9 eexists. split; [reflexivity|].
    split; [reflexivity|]. split; [assumption|].
    split; [exact Hs|].
    split; [intros Hlt; apply same_state; apply Hsilent in Hlt; tauto|].
    split; [intros; contradiction|].
    split.
    + intros _. eexists (x6 ++ x10), _, _, er, (x14 ++ l2).
      split; [rewrite <- !app_assoc; reflexivity|].
      split; [apply only_output_app; assumption|].
      split; [apply only_output_app; assumption|].
      exact Hr.
    + intros ->. split; [reflexivity|]. do 3 eexists. exact Hr.
Qed.

Lemma in_quiet (e : event) (evs : list event) : In e (quiet evs) -> In e evs.
Proof. unfold quiet. intros H. apply List.filter_In in H. tauto. Qed.

(** The value of a probe is [0] or the [errno] left by one of its calls. *)
Lemma stat_run_value (path : string) (es : list event) (v : Z) :
  stat_run path es v -> v = 0 \/ exists c r, In (Call c r) es /\ v = err r.
Proof.
  intros H. inversion H; subst; [right|right|right|left; reflexivity];
    do 2 eexists; (split; [|reflexivity]); cbn; auto.
Qed.

Lemma readdir_run_value (path : string) (es : list event) (v : Z) :
  readdir_run path es v -> v = 0 \/ exists c r, In (Call c r) es /\ v = err r.
Proof.
  intros H. inversion H; subst; [right|right|right|left; reflexivity];
    do 2 eexists; (split; [|reflexivity]); cbn; auto.
Qed.

(** The second half of [check_mountpoint]: the directory-listing probe,
    if selected. *)
Lemma readdir_part_value (path : string) (check_method ret0 : Z)
    (s : @pstate W) :
  exists v s' evs,
    (if truthy (Z.land check_method CHECK_METHOD_READDIR) then
       bind (debug "before check_mountpoint_readdir") (fun _ =>
         bind (check_mountpoint_readdir path) (fun r =>
           bind (debug "check_mountpoint_readdir: ret=%d") (fun _ =>
             if truthy r then
               bind (debug "check method readdir failed: %d") (fun _ => ret r)
             else ret r)))
     else ret ret0) s = (Ret v, s', evs) /\
    (v = ret0 /\ evs = [] /\ s' = s
     \/ v = 0 \/ exists c r, In (Call c r) evs /\ v = err r).
Proof.
  destruct (truthy (Z.land check_method CHECK_METHOD_READDIR)).
  - run_log.
    match goal with
    | |- context [bind (check_mountpoint_readdir path) ?k ?s0] =>
        destruct (check_mountpoint_readdir_run path s0)
          as (vr & s3 & er & Hr & _ & _ & Hrr);
        rewrite (bind_run _ k s0 _ _ _ Hr); cbv beta
    end.
    run_log.
    apply readdir_run_value in Hrr.
    destruct (truthy vr); [run_log|]; unfold ret; cbv beta iota;
      (do 3 eexists; split; [reflexivity|]; right);
      (destruct Hrr as [Hz|(c & r & Hin & Hv)]; [left; exact Hz|right]);
      exists c, r; (split; [|exact Hv]); apply in_quiet in Hin;
      rewrite !List.in_app_iff; tauto.
  - unfold ret. do 3 eexists. split; [reflexivity|]. left. auto.
Qed.

(** The value of [check_mountpoint] is [0] or the [errno] left by one of
    the calls it made. *)
Lemma check_mountpoint_value (path : string) (check_method : Z)
    (s : @pstate W) :
  exists v s' evs,
    check_mountpoint path check_method s = (Ret v, s', evs) /\
    (v = 0 \/ exists c r, In (Call c r) evs /\ v = err r).
Proof.
  unfold check_mountpoint.
  destruct (truthy (Z.land check_method CHECK_METHOD_STAT)).
  - run_log.
    match goal with
    | |- context [bind (check_mountpoint_stat path) ?k ?s0] =>
        destruct (check_mountpoint_stat_run path s0)
          as (vs & s1 & es & Hs & _ & _ & Hsr);
        rewrite (bind_run _ k s0 _ _ _ Hs); cbv beta
    end.
    run_log.
    apply stat_run_value in Hsr.
    destruct (truthy vs) eqn:Hvs.
    + run_log. unfold ret. cbv beta iota.
      do 3 eexists. split; [reflexivity|].
      destruct Hsr as [Hz|(c & r & Hin & Hv)]; [left; exact Hz|right].
      exists c, r. split; [|exact Hv]. apply in_quiet in Hin.
      rewrite !List.in_app_iff. tauto.
    + apply truthy_false in Hvs. subst vs.
      match goal with
      | |- context [(if truthy _ then _ else ret 0) ?s0] =>
          destruct (readdir_part_value path check_method 0 s0)
            as (v & s' & evs & Hrun & Hv)
      end.
      rewrite Hrun. cbv beta iota.
      do 3 eexists. split; [reflexivity|].
      destruct Hv as [(-> & _)|[Hz|(c & r & Hin & Hv)]];
        [left; reflexivity | left; exact Hz | right].
      exists c, r. split; [|exact Hv].
      rewrite !List.in_app_iff. tauto.
  - destruct (readdir_part_value path check_method 0 s)
      as (v & s' & evs & Hrun & Hv).
    rewrite Hrun. do 3 eexists. split; [reflexivity|].
    destruct Hv as [(-> & _)|[Hz|Hin]]; auto.
Qed.

(** C7 (amended).  The status probe always returns.  Its calls and its
    value are one of the four runs of [stat_run]: the first step that
    fails gives the value, its [errno]; nothing is called after a failed
    [open]; after a failed [fstat] the descriptor is still closed, and
    what that [close] returns is ignored.  When the failing calls leave a
    positive [errno], the value is [0] exactly when [open], [fstat] and
    [close] were all called and none failed. *)
Theorem check_mountpoint_stat_first_failure (path : string) (s : @pstate W) :
  exists v s' evs,
    check_mountpoint_stat path s = (Ret v, s', evs) /\
    stat_run path (quiet evs) v /\
    (Forall sets_errno evs ->
     (v = 0 <->
      length (quiet evs) = 3%nat /\
      Forall (fun e => failed e = false) (quiet evs))).
Proof.
  destruct (check_mountpoint_stat_run path s) as (v & s' & evs & Hrun & _ & _ & Hsr).
  exists v, s', evs. split; [exact Hrun|]. split; [exact Hsr|].
  intros Hposix.
  assert (Hq : Forall sets_errno (quiet evs)).
  { unfold quiet. rewrite List.Forall_forall in *.
    intros e He. apply List.filter_In in He. apply Hposix. tauto. }
  inversion Hsr as [r1 Hr1 Heq|r1 r2 r3 Hr1 Hr2 Heq|r1 r2 r3 Hr1 Hr2 Hr3 Heq
                   |r1 r2 r3 Hr1 Hr2 Hr3 Heq];
    rewrite <- Heq in Hq; subst v.
  - inversion Hq as [|e l He _]; subst. cbn in He.
    split; [lia|]. intros [Hlen _]. discriminate Hlen.
  - inversion Hq as [|e l _ Hq1]; subst.
    inversion Hq1 as [|e l He _]; subst. cbn in He.
    split; [lia|]. intros [_ Hall].
    inversion Hall as [|e l _ Hall1]; subst.
    inversion Hall1 as [|e l Hf _]; subst. cbn in Hf. lia.
  - inversion Hq as [|e l _ Hq1]; subst.
    inversion Hq1 as [|e l _ Hq2]; subst.
    inversion Hq2 as [|e l He _]; subst. cbn in He.
    split; [lia|]. intros [_ Hall].
    inversion Hall as [|e l _ Hall1]; subst.
    inversion Hall1 as [|e l _ Hall2]; subst.
    inversion Hall2 as [|e l Hf _]; subst. cbn in Hf. lia.
  - split; [|reflexivity]. intros _. split; [reflexivity|].
    repeat constructor; cbn; lia.
Qed.

End Probes.

(** C4, on a run: both probes selected, [open] fails with [ENOENT]. *)
Lemma check_mountpoint_short_circuit_witness :
  truthy (Z.land 3 CHECK_METHOD_STAT) = true /\
  truthy (Z.land 3 CHECK_METHOD_READDIR) = true /\
  exists v s' evs,
    check_mountpoint "/mnt" 3 (initial [Reply (-1) 0 2]) = (Ret v, s', evs).
Proof.
  split; [reflexivity|]. split; [reflexivity|].
  destruct (check_mountpoint_short_circuit "/mnt" 3
              (initial [Reply (-1) 0 2]) eq_refl eq_refl)
    as (v & s' & evs & _ & _ & _ & _ & _ & _ & H & _).
  exists v, s', evs. exact H.
Defined.

(** C7 as stated fails: [fstat] fails with [EIO] on descriptor 3, and
    [close(3)] is called all the same, so a call follows the first failed
    one. *)
Lemma check_mountpoint_stat_closes_after_failed_fstat :
  exists s' evs,
    check_mountpoint_stat "/mnt"
      (initial [Reply 3 0 0; Reply (-1) 0 5; Reply 0 0 5]) = (Ret 5, s', evs) /\
    In (Call (c_fstat 3) (Reply (-1) 0 5)) evs /\
    In (Call (c_close 3) (Reply 0 0 5)) evs /\
    stops_at_first_failure (quiet evs) = false.
Proof.
  do 2 eexists. split; [reflexivity|].
  cbn. intuition.
Qed.

Ltac run_child :=
  match goal with
  | |- context [bind get_child ?k ?s] =>
      rewrite (bind_run get_child k s s (child s) [] eq_refl); cbv beta;
      cbn [errno verbosity child world]
  end.

Ltac run_waitpid :=
  rewrite (bind_run _ _ _ _ _ _ (waitpid_run _ _ _)); cbv beta;
  cbn [errno verbosity child world fst snd].

Section Supervisor.

Context {W : Type} {os : OS W}.

(** Every run of the wait loop: the interrupted calls, then either a call
    that succeeded, or a call that failed for another reason and
    [exit(1)], or the cut-off. *)
Lemma wait_loop_run (fuel : nat) (s : @pstate W) :
  exists res s' replies tail,
    wait_loop fuel s = (res, s', map (Call (c_waitpid (child s) 0)) replies ++ tail) /\
    Forall interrupted replies /\
    verbosity s' = verbosity s /\ child s' = child s /\
    match res with
    | Ret status =>
        exists r_ok,
          tail = [Call (c_waitpid (child s) 0) r_ok] /\
          0 <= rv r_ok /\ status = out r_ok /\
          (length replies < fuel)%nat
    | Stop StillWaiting => tail = [] /\ length replies = fuel
    | Stop (Exited code) =>
        code = 1 /\
        exists r_bad logs,
          tail = [Call (c_waitpid (child s) 0) r_bad] ++ logs ++ [Halt (h_exit 1)] /\
          rv r_bad < 0 /\ err r_bad <> EINTR /\ only_output logs
    | Stop _ => False
    end.
Proof.
  revert s. induction fuel as [|fuel IH]; intros s.
  - exists (Stop StillWaiting), s, [], []. cbn. repeat split; constructor.
  - cbn [wait_loop]. run_child. run_waitpid.
    destruct (os_sys _ (errno s) (world s)) as [r w] eqn:Hos; cbn [fst snd].
    destruct (rv r <? 0) eqn:Hrv.
    + run_errno.
      destruct (err r =? EINTR) eqn:He.
      * destruct (IH (PState (verbosity s) (child s) (err r) w))
          as (res & s' & replies & tail & Hrun & Hall & Hv & Hc & Hres).
        cbn [errno verbosity child world] in *.
        rewrite Hrun. exists res, s', (r :: replies), tail.
        split; [reflexivity|].
        split; [constructor; [split; lia | assumption]|].
        split; [assumption|]. split; [assumption|].
        destruct res as [status|[code| | | |]]; try assumption.
        -- destruct Hres as (r_ok & ? & ? & ? & ?).
           exists r_ok. cbn [length]. repeat split; try assumption; lia.
        -- destruct Hres as [? ?]. split; [assumption|]. cbn [length]. lia.
      * run_debug. unfold exit, halt_with. cbv beta iota.
        exists (Stop (Exited 1)), (PState (verbosity s) (child s) x0 x1), [], 
          ([Call (c_waitpid (child s) 0) r] ++ x2 ++ [Halt (h_exit 1)]).
        cbn [map app verbosity child].
        repeat split; try constructor.
        exists r, x2. repeat split; try assumption; lia.
    + unfold ret. cbv beta iota.
      exists (Ret (out r)), (PState (verbosity s) (child s) (err r) w), [], 
        [Call (c_waitpid (child s) 0) r].
      cbn [map app verbosity child].
      repeat split; try constructor.
      exists r. cbn [length]. repeat split; lia.
Qed.

(** Once a call of [waitpid] succeeds after [k] interrupted ones, the
    loop returns its status, provided it may make more than [k] calls. *)
Lemma wait_loop_observes (k : nat) (s s1 : @pstate W) (rs : list reply) :
  interrupted_waits k s s1 rs ->
  forall r w fuel,
    os_sys (c_waitpid (child s1) 0) (errno s1) (world s1) = (r, w) ->
    0 <= rv r -> (k < fuel)%nat ->
    wait_loop fuel s =
    (Ret (out r), PState (verbosity s) (child s) (err r) w,
     map (Call (c_waitpid (child s) 0)) (rs ++ [r])).
Proof.
  induction 1 as [s|k s r0 w0 s1 rs Hos [Hneg Herr] Hrest IH];
    intros r w fuel Hok Hrv Hfuel.
  - destruct fuel as [|fuel]; [lia|].
    cbn [wait_loop]. run_child. run_waitpid. rewrite Hok. cbn [fst snd].
    replace (rv r <? 0) with false by lia.
    reflexivity.
  - destruct fuel as [|fuel]; [lia|].
    cbn [wait_loop]. run_child. run_waitpid. rewrite Hos. cbn [fst snd].
    replace (rv r0 <? 0) with true by lia.
    run_errno.
    destruct (Z.eqb_spec (err r0) EINTR) as [_|Hne]; [|contradiction].
    rewrite (IH r w fuel Hok Hrv) by lia.
    reflexivity.
Qed.

(** The classification that ends [wait_for_child]. *)
Lemma classification_run (status : Z) (s : @pstate W) :
  exists s' logs,
    (if WIFEXITED status then
       let r := WEXITSTATUS status in
       bind (debug "child exited with ret = %d") (fun _ => ret r)
     else if WIFSIGNALED status then
       let r := WTERMSIG status in
       bind (debug "child exited from signal = %d") (fun _ =>
         if r =? SIGKILL then
           bind (debug "child was killed by timeout, mountpoint hung")
             (fun _ => ret ETIMEDOUT)
         else
           bind (debug "mountpoint in unknown status") (fun _ => ret EUNKNOWN))
     else if WIFSTOPPED status then
       bind (debug "child was stopped") (fun _ => ret EUNKNOWN)
     else if WIFCONTINUED status then
       bind (debug "child was continued") (fun _ => ret EUNKNOWN)
     else ret EUNKNOWN) s = (Ret (status_code status), s', logs) /\
    only_output logs /\
    verbosity s' = verbosity s /\ child s' = child s.
Proof.
  unfold status_code.
  destruct (WIFEXITED status).
  - cbv zeta. run_debug. unfold ret. cbv beta iota.
    do 2 eexists. split; [reflexivity|].
    split; [apply only_output_app; [assumption|constructor]|]. split; reflexivity.
  - destruct (WIFSIGNALED status).
    + cbv zeta. run_debug.
      destruct (WTERMSIG status =? SIGKILL); run_debug; unfold ret;
        cbv beta iota; do 2 eexists; (split; [reflexivity|]);
        (split; [repeat apply only_output_app; try assumption; constructor|]);
        split; reflexivity.
    + destruct (WIFSTOPPED status); [|destruct (WIFCONTINUED status)];
        try run_debug; unfold ret; cbv beta iota; do 2 eexists;
        (split; [reflexivity|]);
        (split; [repeat apply only_output_app; try assumption; constructor|]);
        split; reflexivity.
Qed.

(** Checking a property of the integers from [lo] on, [n] of them, by
    evaluation. *)
Lemma check_range (P : Z -> bool) (lo : Z) (n : nat) :
  forallb P (map (fun i => lo + Z.of_nat i) (seq 0 n)) = true ->
  forall x, lo <= x < lo + Z.of_nat n -> P x = true.
Proof.
  intros H x Hx. rewrite forallb_forall in H. apply H.
  apply in_map_iff. exists (Z.to_nat (x - lo)). split; [lia|].
  apply in_seq. lia.
Qed.

(** On the status of a well-formed termination, the value computed by
    [wait_for_child] is the code of the outcome the specification asks
    for. *)
Lemma status_code_encode (t : termination) :
  wf_termination t ->
  status_code (encode_status t) = outcome_code (classify t).
Proof.
  destruct t as [code|sig core|sig|]; cbn [wf_termination]; intros Hwf.
  - apply Z.eqb_eq.
    apply (check_range
             (fun c => status_code (encode_status (ExitedWith c)) =?
                       outcome_code (classify (ExitedWith c))) 0 256);
      [vm_compute; reflexivity | lia].
  - apply Z.eqb_eq.
    destruct core;
      [apply (check_range
                (fun c => status_code (encode_status (KilledBy c true)) =?
                          outcome_code (classify (KilledBy c true))) 1 64)
      |apply (check_range
                (fun c => status_code (encode_status (KilledBy c false)) =?
                          outcome_code (classify (KilledBy c false))) 1 64)];
      first [vm_compute; reflexivity | lia].
  - apply Z.eqb_eq.
    apply (check_range
             (fun c => status_code (encode_status (StoppedBy c)) =?
                       outcome_code (classify (StoppedBy c))) 1 64);
      [vm_compute; reflexivity | lia].
  - reflexivity.
Qed.

(** C1.  Let the worker's termination [t] be observed: after
    [alarm(timeout)] and [k] interrupted calls, [waitpid] succeeds and
    stores the status of [t].  Then [wait_for_child], allowed more than
    [k] calls, returns the code of [classify t]: [0] for an exit with
    status 0, [N] for an exit with status [N], [ETIMEDOUT] for a death by
    [SIGKILL], [EUNKNOWN] for a death by another signal and for a stopped
    or continued child. *)
Theorem wait_for_child_classification (fuel k : nat) (timeout : Z)
    (s s0 s1 : @pstate W) (a : Z) (e0 : list event) (rs : list reply)
    (r : reply) (w : W) (t : termination) :
  wf_termination t ->
  sys (c_alarm (to_unsigned timeout)) s = (Ret a, s0, e0) ->
  interrupted_waits k s0 s1 rs ->
  os_sys (c_waitpid (child s1) 0) (errno s1) (world s1) = (r, w) ->
  0 <= rv r ->
  out r = encode_status t ->
  (k < fuel)%nat ->
  exists s' evs,
    wait_for_child fuel timeout s = (Ret (outcome_code (classify t)), s', evs).
Proof.
  intros Hwf Halarm Hwaits Hos Hrv Hout Hfuel.
  unfold wait_for_child.
  rewrite (bind_run _ _ _ _ _ _ Halarm). cbv beta.
  rewrite (bind_run _ _ _ _ _ _
             (wait_loop_observes k s0 s1 rs Hwaits r w fuel Hos Hrv Hfuel)).
  cbv beta. run_sys.
  match goal with
  | |- context [(if WIFEXITED _ then _ else _) ?s2] =>
      destruct (classification_run (out r) s2) as (s' & logs & Hcl & _)
  end.
  cbv zeta in Hcl. rewrite Hcl. cbv beta iota.
  rewrite Hout, (status_code_encode t Hwf).
  do 2 eexists. reflexivity.
Qed.

(** C2.  The handler returns at once, having called nothing, when no
    child is recorded ([child <= 0]).  Otherwise it calls
    [kill(child, SIGKILL)], once, and if that fails the process ends with
    [_exit(EUNKNOWN)], that is 255.  So [SIGKILL] is sent exactly when
    [child > 0], and every call made is async-signal-safe. *)
Theorem handle_sigalrm_kills_recorded_child (signum : Z) (s : @pstate W) :
  exists res s' evs,
    handle_sigalrm signum s = (res, s', evs) /\
    (child s <= 0 -> res = Ret tt /\ s' = s /\ evs = []) /\
    (0 < child s ->
     exists r,
       evs = Call (c_kill (child s) SIGKILL) r ::
             (if rv r <? 0 then [Halt (h__exit 255)] else []) /\
       res = (if rv r <? 0 then Stop (QuickExited 255) else Ret tt)) /\
    ((exists r, In (Call (c_kill (child s) SIGKILL) r) evs) <-> 0 < child s) /\
    Forall (fun e => async_signal_safe e = true) evs.
Proof.
  unfold handle_sigalrm. run_child.
  destruct (child s <=? 0) eqn:Hc.
  - unfold ret. do 3 eexists. split; [reflexivity|].
    split; [auto|]. split; [lia|].
    split; [|constructor].
    split; [intros [r []] | lia].
  - run_sys.
    destruct (os_sys (c_kill _ _) (errno s) (world s)) as [r w]; cbn [fst snd].
    destruct (rv r <? 0) eqn:Hr; unfold _exit, halt_with, ret; cbv beta iota;
      (do 3 eexists; split; [reflexivity|]);
      (split; [lia|]);
      (split; [intros _; exists r; rewrite Hr; split; reflexivity|]);
      (split; [split; [lia | intros _; exists r; left; reflexivity]|]);
      repeat constructor.
Qed.

(** Every run of [wait_for_child]: [alarm(timeout)], the interrupted calls
    of [waitpid], and then what [wait_loop_run] tells, with [alarm(0)] and
    the classification after a call that succeeded. *)
Lemma wait_for_child_run (fuel : nat) (timeout : Z) (s : @pstate W) :
  exists res s' ra0 replies tail,
    wait_for_child fuel timeout s =
      (res, s',
       Call (c_alarm (to_unsigned timeout)) ra0 ::
       map (Call (c_waitpid (child s) 0)) replies ++ tail) /\
    Forall interrupted replies /\
    match res with
    | Ret v =>
        exists r_ok ra1 logs,
          tail = [Call (c_waitpid (child s) 0) r_ok; Call (c_alarm 0) ra1] ++ logs /\
          only_output logs /\
          0 <= rv r_ok /\ v = status_code (out r_ok) /\
          (length replies < fuel)%nat
    | Stop StillWaiting => tail = [] /\ length replies = fuel
    | Stop (Exited code) =>
        code = 1 /\
        exists r_bad logs,
          tail = [Call (c_waitpid (child s) 0) r_bad] ++ logs ++ [Halt (h_exit 1)] /\
          rv r_bad < 0 /\ err r_bad <> EINTR /\ only_output logs
    | Stop _ => False
    end.
Proof.
  unfold wait_for_child. run_sys.
  destruct (os_sys (c_alarm _) (errno s) (world s)) as [ra0 w0]; cbn [fst snd].
  match goal with
  | |- context [bind (wait_loop fuel) ?k ?s0] =>
      destruct (wait_loop_run fuel s0)
        as (res & s1 & replies & tail & Hrun & Hall & Hv & Hc & Hres);
      cbn [errno verbosity child world] in *
  end.
  destruct res as [status|r].
  - rewrite (bind_run _ _ _ _ _ _ Hrun). cbv beta.
    destruct Hres as (r_ok & -> & Hrv & -> & Hlen).
    run_sys.
    destruct (os_sys (c_alarm 0) (errno s1) (world s1)) as [ra1 w1]; cbn [fst snd].
    match goal with
    | |- context [(if WIFEXITED _ then _ else _) ?s2] =>
        destruct (classification_run (out r_ok) s2) as (s' & logs & Hcl & Hlogs & _)
    end.
    cbv zeta in Hcl. rewrite Hcl. cbv beta iota.
    exists (Ret (status_code (out r_ok))), s', ra0, replies,
      ([Call (c_waitpid (child s) 0) r_ok; Call (c_alarm 0) ra1] ++ logs).
    split; [cbn [app]; rewrite <- app_assoc; reflexivity|].
    split; [assumption|].
    exists r_ok, ra1, logs. repeat split; assumption.
  - rewrite (bind_stop _ _ _ _ _ _ Hrun). cbv beta iota.
    exists (Stop r), s1, ra0, replies, tail.
    split; [reflexivity|]. split; [assumption|]. exact Hres.
Qed.

(** C3.  Every run of [wait_for_child] starts with [alarm(timeout)] and
    goes on with calls of [waitpid] that were interrupted ([EINTR]) and
    each followed by another call.  A value is returned only after a call
    of [waitpid] that succeeded: [alarm(0)] comes right after it, whatever
    the status, then only the output of the classification, and the value
    is computed from the status of that call.  Without such a call there
    is no value: the loop is still retrying when cut off, or [waitpid]
    failed for another reason and the process exits with 1. *)
Theorem wait_for_child_retries_until_observed (fuel : nat) (timeout : Z)
    (s s' : @pstate W) (res : result Z) (evs : list event) :
  wait_for_child fuel timeout s = (res, s', evs) ->
  exists ra0 replies tail,
    evs = Call (c_alarm (to_unsigned timeout)) ra0 ::
          map (Call (c_waitpid (child s) 0)) replies ++ tail /\
    Forall interrupted replies /\
    match res with
    | Ret v =>
        exists r_ok ra1 logs,
          tail = [Call (c_waitpid (child s) 0) r_ok; Call (c_alarm 0) ra1] ++ logs /\
          only_output logs /\
          0 <= rv r_ok /\ v = status_code (out r_ok) /\
          (length replies < fuel)%nat
    | Stop StillWaiting => tail = [] /\ length replies = fuel
    | Stop (Exited code) =>
        code = 1 /\
        exists r_bad logs,
          tail = [Call (c_waitpid (child s) 0) r_bad] ++ logs ++ [Halt (h_exit 1)] /\
          rv r_bad < 0 /\ err r_bad <> EINTR /\ only_output logs
    | Stop _ => False
    end.
Proof.
  intros Hrun.
  destruct (wait_for_child_run fuel timeout s)
    as (res0 & s0 & ra0 & replies & tail & Hrun0 & Hall & Hres).
  rewrite Hrun in Hrun0. injection Hrun0 as <- <- ->.
  exists ra0, replies, tail. auto.
Qed.

(** The value of [wait_for_child] is the code of some status. *)
Lemma wait_for_child_value (fuel : nat) (timeout : Z) (s s' : @pstate W)
    (v : Z) (evs : list event) :
  wait_for_child fuel timeout s = (Ret v, s', evs) ->
  exists status, v = status_code status.
Proof.
  intros Hrun.
  destruct (wait_for_child_run fuel timeout s)
    as (res0 & s0 & ra0 & replies & tail & Hrun0 & _ & Hres).
  rewrite Hrun in Hrun0. injection Hrun0 as <- _ _.
  destruct Hres as (r_ok & ra1 & logs & _ & _ & _ & Hv & _).
  exists (out r_ok). exact Hv.
Qed.

Lemma WEXITSTATUS_range (status : Z) : 0 <= WEXITSTATUS status <= 255.
Proof.
  unfold WEXITSTATUS. rewrite Z.shiftr_land.
  change (Z.shiftr 65280 8) with (Z.ones 8).
  rewrite Z.land_ones by lia.
  pose proof (Z.mod_pos_bound (Z.shiftr status 8) (2 ^ 8)) as H.
  change (2 ^ 8) with 256 in *. lia.
Qed.

(** Whatever the status, its code is an index of the array. *)
Lemma status_code_range (status : Z) : 0 <= status_code status <= 255.
Proof.
  unfold status_code.
  destruct (WIFEXITED status); [apply WEXITSTATUS_range|].
  destruct (WIFSIGNALED status); [|unfold EUNKNOWN; lia].
  destruct (WTERMSIG status =? SIGKILL); unfold ETIMEDOUT, EUNKNOWN; lia.
Qed.

End Supervisor.

(** C1, on a run: one interrupted [waitpid], then the worker is reported
    killed by [SIGKILL]. *)
Lemma wait_for_child_classification_witness :
  exists s' evs,
    wait_for_child 5 2
      (PState 1 77 0
         [Reply 0 0 0; Reply (-1) 0 4;
          Reply 77 (encode_status (KilledBy 9 false)) 0]) =
    (Ret ETIMEDOUT, s', evs).
Proof.
  apply (wait_for_child_classification 5 1 2
           (PState 1 77 0
              [Reply 0 0 0; Reply (-1) 0 4;
               Reply 77 (encode_status (KilledBy 9 false)) 0])
           (PState 1 77 0
              [Reply (-1) 0 4; Reply 77 (encode_status (KilledBy 9 false)) 0])
           (PState 1 77 4 [Reply 77 (encode_status (KilledBy 9 false)) 0])
           0 [Call (c_alarm 2) (Reply 0 0 0)] [Reply (-1) 0 4]
           (Reply 77 (encode_status (KilledBy 9 false)) 0) []
           (KilledBy 9 false)).
  - cbn. lia.
  - reflexivity.
  - eapply iw_again; [reflexivity | split; [cbn; lia | reflexivity] | apply iw_none].
  - reflexivity.
  - cbn. lia.
  - reflexivity.
  - lia.
Defined.

(** C3, on a run: two interrupted calls, then the worker is reported to
    have exited with status 2. *)
Lemma wait_for_child_retries_until_observed_witness :
  exists ra0 replies tail,
    [Call (c_alarm 2) (Reply 0 0 0);
     Call (c_waitpid 77 0) (Reply (-1) 0 4);
     Call (c_waitpid 77 0) (Reply (-1) 0 4);
     Call (c_waitpid 77 0) (Reply 77 512 0);
     Call (c_alarm 0) (Reply 0 0 0)] =
    Call (c_alarm (to_unsigned 2)) ra0 ::
    map (Call (c_waitpid 77 0)) replies ++ tail /\
    Forall interrupted replies /\
    exists r_ok ra1 logs,
      tail = [Call (c_waitpid 77 0) r_ok; Call (c_alarm 0) ra1] ++ logs /\
      only_output logs /\
      0 <= rv r_ok /\ 2 = status_code (out r_ok) /\
      (length replies < 5)%nat.
Proof.
  exact (wait_for_child_retries_until_observed 5 2
           (PState 1 77 0
              [Reply 0 0 0; Reply (-1) 0 4; Reply (-1) 0 4;
               Reply 77 512 0; Reply 0 0 0])
           (PState 1 77 0 []) (Ret 2) _ eq_refl).
Defined.

(** [strtol] gives the number at the front of the string, clamped to
    [long] with [ERANGE], and nothing when there is none. *)
Lemma strtol_front_number (s : string) (e : Z) :
  match front_number s with
  | None => strtol s e = (0, false, e)
  | Some z =>
      strtol s e =
      (if z >? LONG_MAX then LONG_MAX
       else if z <? LONG_MIN then LONG_MIN else z,
       true,
       if (z >? LONG_MAX) || (z <? LONG_MIN) then ERANGE else e)
  end.
Proof.
  unfold front_number, strtol.
  destruct (match skip_space s with
            | String "-" s' => (true, s')
            | String "+" s' => (false, s')
            | _ => (false, skip_space s)
            end) as [neg s2].
  destruct (read_digits s2 0 0) as [mag [|n]]; [reflexivity|].
  destruct ((if neg then - mag else mag) >? LONG_MAX); [reflexivity|].
  destruct ((if neg then - mag else mag) <? LONG_MIN); reflexivity.
Qed.

(** [safe_atoi] keeps the result of [strtol] exactly when [errno] was not
    [ERANGE] already and the string has a number at its front that fits
    [int]; the value kept is that number. *)
Lemma accepted_front_number (s : string) (e v : Z) (moved : bool) (e' : Z) :
  strtol s e = (v, moved, e') ->
  accepted (v, moved, e') = true <->
  e <> ERANGE /\
  exists z, front_number s = Some z /\ INT_MIN <= z <= INT_MAX /\ v = z.
Proof.
  intros Hs. pose proof (strtol_front_number s e) as H.
  destruct (front_number s) as [z|].
  - rewrite Hs in H. injection H as -> -> ->. unfold accepted.
    unfold LONG_MAX, LONG_MIN, INT_MIN, INT_MAX, ERANGE in *.
    destruct (Z.gtb_spec z 9223372036854775807);
      [|destruct (Z.ltb_spec z (-9223372036854775808))]; cbn [orb andb].
    + split; [intros Ha; exfalso; lia|].
      intros (_ & z' & Hz & Hr & _). injection Hz as <-. lia.
    + split; [intros Ha; exfalso; lia|].
      intros (_ & z' & Hz & Hr & _). injection Hz as <-. lia.
    + split.
      * intros Ha. split; [lia|]. exists z. repeat split; lia.
      * intros (He & z' & Hz & Hr & _). injection Hz as <-. lia.
  - rewrite Hs in H. injection H as -> -> ->. unfold accepted. cbn [andb].
    split; [discriminate|]. intros (_ & z & Hz & _). discriminate.
Qed.

Section CommandLine.

Context {W : Type} {os : OS W}.

(** [safe_atoi] on a string: it returns what [strtol] converted when that
    is kept, without any call, and otherwise reports the error and exits
    with [EINVAL]. *)
Lemma safe_atoi_run (str : string) (s : @pstate W) :
  exists v moved e,
    strtol str (errno s) = (v, moved, e) /\
    (accepted (v, moved, e) = true ->
     safe_atoi (Some str) s =
       (Ret v, PState (verbosity s) (child s) e (world s), [])) /\
    (accepted (v, moved, e) = false ->
     exists s' logs,
       safe_atoi (Some str) s =
         (Stop (Exited EINVAL), s', logs ++ [Halt (h_exit EINVAL)]) /\
       only_output logs /\ child s' = child s).
Proof.
  unfold safe_atoi. run_errno.
  destruct (strtol str (errno s)) as [[v moved] e] eqn:Hs.
  exists v, moved, e. split; [reflexivity|].
  unfold accepted.
  rewrite (bind_run (set_errno e) _ s
             (PState (verbosity s) (child s) e (world s)) tt [] eq_refl).
  cbv beta.
  destruct (moved && negb (e =? ERANGE) && (v >=? INT_MIN) && (v <=? INT_MAX)).
  - split; [|discriminate]. intros _. reflexivity.
  - split; [discriminate|]. intros _.
    run_log. unfold exit, halt_with. cbv beta iota.
    do 2 eexists. split; [reflexivity|]. split; [assumption|reflexivity].
Qed.

(** The loop over the tokens of [-m]: either every token names a check
    method and their bits are returned, or some token does not and the
    process exits with [EINVAL]. *)
Lemma parse_tokens_run (toks : list string) (cm : Z) (s : @pstate W) :
  exists res s' evs,
    parse_tokens toks cm s = (res, s', evs) /\
    verbosity s' = verbosity s /\ child s' = child s /\
    match res with
    | Ret m =>
        only_output evs /\ m = methods_of_tokens toks cm /\
        Forall (fun t => method_of_token t <> None) toks
    | Stop (Exited c) =>
        c = EINVAL /\
        (exists logs, evs = logs ++ [Halt (h_exit EINVAL)] /\ only_output logs) /\
        Exists (fun t => method_of_token t = None) toks
    | Stop _ => False
    end.
Proof.
  revert cm s. induction toks as [|tok toks IH]; intros cm s.
  - exists (Ret cm), s, []. cbn. repeat split; constructor.
  - cbn [parse_tokens methods_of_tokens]. unfold method_of_token at 1.
    destruct (strcasecmp tok "stat" =? 0) eqn:Hstat;
      [|destruct (strcasecmp tok "readdir" =? 0) eqn:Hreaddir].
    + run_log.
      match goal with
      | |- context [parse_tokens toks ?m ?s0] =>
          destruct (IH m s0) as (res & s' & evs & Hrun & Hv & Hc & Hres)
      end.
      rewrite Hrun. cbv beta iota. cbn [verbosity child] in *.
      exists res, s', (x2 ++ evs). split; [reflexivity|].
      split; [assumption|]. split; [assumption|].
      destruct res as [m|[c| | | |]]; try assumption.
      * destruct Hres as (Ho & Hm & Hall).
        split; [apply only_output_app; assumption|]. split; [assumption|].
        constructor; [|assumption].
        unfold method_of_token. rewrite Hstat. discriminate.
      * destruct Hres as (Hcode & (logs & Hev & Ho) & Hex).
        split; [assumption|]. split; [|right; assumption].
        exists (x2 ++ logs). rewrite Hev, app_assoc.
        split; [reflexivity | apply only_output_app; assumption].
    + run_log.
      match goal with
      | |- context [parse_tokens toks ?m ?s0] =>
          destruct (IH m s0) as (res & s' & evs & Hrun & Hv & Hc & Hres)
      end.
      rewrite Hrun. cbv beta iota. cbn [verbosity child] in *.
      exists res, s', (x2 ++ evs). split; [reflexivity|].
      split; [assumption|]. split; [assumption|].
      destruct res as [m|[c| | | |]]; try assumption.
      * destruct Hres as (Ho & Hm & Hall).
        split; [apply only_output_app; assumption|]. split; [assumption|].
        constructor; [|assumption].
        unfold method_of_token. rewrite Hstat, Hreaddir. discriminate.
      * destruct Hres as (Hcode & (logs & Hev & Ho) & Hex).
        split; [assumption|]. split; [|right; assumption].
        exists (x2 ++ logs). rewrite Hev, app_assoc.
        split; [reflexivity | apply only_output_app; assumption].
    + run_log. unfold exit, halt_with. cbv beta iota.
      do 3 eexists. split; [reflexivity|]. cbn [verbosity child].
      split; [reflexivity|]. split; [reflexivity|].
      split; [reflexivity|].
      split; [exists x2; split; [reflexivity|assumption]|].
      left. unfold method_of_token. rewrite Hstat, Hreaddir. reflexivity.
Qed.

(** The bits gathered from tokens that all name a check method: no other
    bit appears, and none is lost. *)
Lemma methods_of_tokens_bits (toks : list string) (acc : Z) :
  0 <= acc <= 3 ->
  Forall (fun t => method_of_token t <> None) toks ->
  0 <= methods_of_tokens toks acc <= 3 /\
  (methods_of_tokens toks acc = 0 <-> toks = [] /\ acc = 0).
Proof.
  intros Hacc Hall. revert acc Hacc.
  induction Hall as [|tok toks Htok _ IH]; intros acc Hacc.
  - cbn. split; [lia|]. split; [auto | tauto].
  - cbn [methods_of_tokens].
    assert (Hcases : acc = 0 \/ acc = 1 \/ acc = 2 \/ acc = 3) by lia.
    destruct (method_of_token tok) as [m|] eqn:Hm; [|contradiction].
    assert (Hbit : m = 1 \/ m = 2).
    { unfold method_of_token in Hm.
      destruct (strcasecmp tok "stat" =? 0);
        [|destruct (strcasecmp tok "readdir" =? 0)];
        inversion Hm; auto. }
    assert (Hlor : 1 <= Z.lor acc m <= 3)
      by (destruct Hbit as [-> | ->];
          destruct Hcases as [-> | [-> | [-> | ->]]];
          vm_compute; split; discriminate).
    destruct (IH (Z.lor acc m)) as [Hrange Hzero]; [lia|].
    split; [assumption|]. split.
    + intros H0. apply Hzero in H0. lia.
    + intros [Hnil _]. discriminate Hnil.
Qed.

Lemma only_output_before_probing (evs : list event) :
  only_output evs -> before_probing evs.
Proof.
  unfold only_output, before_probing. intros H.
  eapply List.Forall_impl; [|exact H]. auto.
Qed.

Lemma before_probing_app (a b : list event) :
  before_probing a -> before_probing b -> before_probing (a ++ b).
Proof. intros Ha Hb. apply Forall_app. split; assumption. Qed.

Lemma before_probing_halt (logs : list event) (h : halt) :
  only_output logs -> before_probing (logs ++ [Halt h]).
Proof.
  intros H. apply before_probing_app.
  - apply only_output_before_probing. assumption.
  - constructor; [right; eauto|constructor].
Qed.

(** Reading and writing the array within its bounds. *)
Lemma array_read_run (a : list Z) (i : Z) (s : @pstate W) :
  0 <= i < Z.of_nat (length a) ->
  exists v, a !! Z.to_nat i = Some v /\ array_read a i s = (Ret v, s, []).
Proof.
  intros Hi. unfold array_read, in_bounds.
  replace ((0 <=? i) && (i <? Z.of_nat (length a))) with true by lia.
  destruct (a !! Z.to_nat i) as [v|] eqn:Hv.
  - exists v. split; reflexivity.
  - apply lookup_ge_None in Hv. lia.
Qed.

Lemma array_write_run (a : list Z) (i v : Z) (s : @pstate W) :
  array_write a i v s =
  if (0 <=? i) && (i <? Z.of_nat (length a))
  then (Ret (<[Z.to_nat i := v]> a), s, [])
  else (Stop Undefined, s, []).
Proof.
  unfold array_write, in_bounds.
  destruct ((0 <=? i) && (i <? Z.of_nat (length a))); reflexivity.
Qed.

(** The first loop of [main] writes every entry, each within bounds. *)
Lemma init_exitcode_map_run (s : @pstate W) :
  init_exitcode_map s = (Ret identity_map, s, []).
Proof. reflexivity. Qed.

Lemma length_identity_map : length identity_map = 256%nat.
Proof. reflexivity. Qed.

Lemma identity_map_lookup (i : Z) :
  0 <= i < 256 -> identity_map !! Z.to_nat i = Some i.
Proof.
  intros Hi. unfold identity_map.
  rewrite list_lookup_fmap.
  rewrite lookup_seq_lt by (change (Z.to_nat ERRNO_MAX) with 256%nat; lia).
  cbn. f_equal. lia.
Qed.

(** The loop that reports the ignored codes reads every entry within
    bounds and only writes output. *)
Lemma dump_loop_run (m : list Z) (n : nat) (i : Z) (s : @pstate W) :
  0 <= i -> i + Z.of_nat n <= Z.of_nat (length m) ->
  exists s' logs,
    for_loop n i
      (fun i (_ : unit) =>
         bind (array_read m i) (fun v =>
           if negb (v =? i)
           then bind (debug "Exit status code %d ignored") (fun _ => ret tt)
           else ret tt)) tt s = (Ret tt, s', logs) /\
    only_output logs /\ verbosity s' = verbosity s /\ child s' = child s.
Proof.
  revert i s. induction n as [|n IH]; intros i s Hi Hn.
  - exists s, []. repeat split. constructor.
  - cbn [for_loop]. rewrite bind_assoc.
    destruct (array_read_run m i s) as (v & _ & Hread); [lia|].
    rewrite (bind_run _ _ _ _ _ _ Hread). cbv beta.
    destruct (negb (v =? i)).
    + rewrite bind_assoc. run_log.
      rewrite (bind_run (ret tt) _ _ _ tt [] eq_refl). cbv beta.
      match goal with
      | |- context [for_loop n (i + 1) ?b tt ?s0] =>
          destruct (IH (i + 1) s0) as (s' & logs & Hrun & Ho & Hv & Hc);
          [lia | lia |]
      end.
      rewrite Hrun. cbv beta iota. cbn [verbosity child] in *.
      do 2 eexists. split; [reflexivity|].
      split; [|split; assumption].
      repeat apply only_output_app; try assumption; constructor.
    + rewrite (bind_run (ret tt) _ _ _ tt [] eq_refl). cbv beta.
      destruct (IH (i + 1) s) as (s' & logs & Hrun & Ho & Hv & Hc);
        [lia | lia |].
      rewrite Hrun. cbv beta iota.
      do 2 eexists. split; [reflexivity|].
      split; [|split; assumption].
      repeat apply only_output_app; try assumption; constructor.
Qed.

Lemma dump_ignored_run (m : list Z) (s : @pstate W) :
  length m = 256%nat ->
  exists s' logs,
    dump_ignored m s = (Ret tt, s', logs) /\
    only_output logs /\ verbosity s' = verbosity s /\ child s' = child s.
Proof.
  intros Hlen. unfold dump_ignored. apply dump_loop_run; [lia|].
  rewrite Hlen. reflexivity.
Qed.

Lemma printf_step (fmt : string) (m : M unit) (n : nat) :
  (forall s : @pstate W, exists s' evs,
     m s = (Ret tt, s', evs) /\ length evs = n /\
     Forall (fun e => is_printf e = true) evs /\ child s' = child s) ->
  forall s : @pstate W, exists s' evs,
    bind (sys (c_printf fmt)) (fun _ => m) s = (Ret tt, s', evs) /\
    length evs = S n /\
    Forall (fun e => is_printf e = true) evs /\ child s' = child s.
Proof.
  intros Hm s. unfold bind. rewrite sys_run.
  destruct (Hm (PState (verbosity s) (child s)
                  (err (fst (os_sys (c_printf fmt) (errno s) (world s))))
                  (snd (os_sys (c_printf fmt) (errno s) (world s)))))
    as (s' & evs & Hrun & Hlen & Hall & Hc).
  rewrite Hrun. do 2 eexists. split; [reflexivity|].
  cbn [app length]. split; [congruence|].
  split; [constructor; [reflexivity|assumption]|exact Hc].
Qed.

(** [usage] is twelve calls of [printf] and nothing else. *)
Lemma usage_lines :
  forall s : @pstate W, exists s' lines,
    usage s = (Ret tt, s', lines) /\
    length lines = 12%nat /\
    Forall (fun e => is_printf e = true) lines /\ child s' = child s.
Proof.
  unfold usage. do 12 apply printf_step.
  intros s. exists s, []. repeat split. constructor.
Qed.

Lemma usage_run (s : @pstate W) :
  exists s' evs,
    usage s = (Ret tt, s', evs) /\ only_output evs /\ child s' = child s.
Proof.
  destruct (usage_lines s) as (s' & evs & Hrun & _ & Hall & Hc).
  exists s', evs. split; [assumption|]. split; [|assumption].
  eapply List.Forall_impl; [|exact Hall].
  intros [[] r|h]; cbn; congruence.
Qed.

(** One option: nothing but output is called, [child] is kept, and when
    the option is accepted the array keeps its length. *)
Lemma handle_option_run (c : ascii) (optarg : option string) (l : locals)
    (s : @pstate W) :
  exists res s' evs,
    handle_option c optarg l s = (res, s', evs) /\
    child s' = child s /\ before_probing evs /\
    (forall l', res = Ret l' ->
       only_output evs /\
       length (exitcode_map l') = length (exitcode_map l)).
Proof.
  unfold handle_option.
  destruct (Ascii.eqb c "h").
  { destruct (usage_run s) as (s1 & e1 & Hu & Ho & Hc).
    rewrite (bind_run _ _ _ _ _ _ Hu). unfold exit, halt_with. cbv beta iota.
    do 3 eexists. split; [reflexivity|]. split; [assumption|].
    split; [apply before_probing_halt; assumption | discriminate]. }
  destruct (Ascii.eqb c "i").
  { destruct optarg as [str|].
    - destruct (safe_atoi_run str s) as (v & moved & e & _ & Hacc & Hrej).
      destruct (accepted (v, moved, e)).
      + rewrite (bind_run _ _ _ _ _ _ (Hacc eq_refl)). cbv beta.
        unfold bind at 1. rewrite array_write_run.
        destruct ((0 <=? v) && (v <? Z.of_nat (length (exitcode_map l)))).
        * unfold ret. cbv beta iota.
          do 3 eexists. split; [reflexivity|]. split; [reflexivity|].
          split; [constructor|].
          intros l' Hl'. injection Hl' as <-. cbn [exitcode_map].
          split; [constructor | apply length_insert].
        * do 3 eexists. split; [reflexivity|]. split; [reflexivity|].
          split; [constructor | discriminate].
      + destruct (Hrej eq_refl) as (s' & logs & Hrun & Ho & Hc).
        rewrite (bind_stop _ _ _ _ _ _ Hrun).
        do 3 eexists. split; [reflexivity|]. split; [assumption|].
        split; [apply before_probing_halt; assumption | discriminate].
    - unfold bind, safe_atoi, undefined.
      do 3 eexists. split; [reflexivity|]. split; [reflexivity|].
      split; [constructor | discriminate]. }
  destruct (Ascii.eqb c "m").
  { destruct optarg as [str|].
    - unfold parse_check_method.
      destruct (parse_tokens_run (strtok_all str ",") 0 s)
        as (res & s' & evs & Hrun & _ & Hc & Hres).
      destruct res as [m|r].
      + rewrite (bind_run _ _ _ _ _ _ Hrun). unfold ret. cbv beta iota.
        destruct Hres as (Ho & _ & _).
        do 3 eexists. split; [reflexivity|]. split; [assumption|].
        rewrite app_nil_r.
        split; [apply only_output_before_probing; assumption|].
        intros l' Hl'. injection Hl' as <-. split; [assumption|reflexivity].
      + rewrite (bind_stop _ _ _ _ _ _ Hrun).
        do 3 eexists. split; [reflexivity|]. split; [assumption|].
        split; [|discriminate].
        destruct r as [code| | | |]; try contradiction.
        destruct Hres as (_ & (logs & -> & Ho) & _).
        apply before_probing_halt; assumption.
    - unfold bind, parse_check_method, undefined.
      do 3 eexists. split; [reflexivity|]. split; [reflexivity|].
      split; [constructor | discriminate]. }
  destruct (Ascii.eqb c "t").
  { destruct optarg as [str|].
    - destruct (safe_atoi_run str s) as (v & moved & e & _ & Hacc & Hrej).
      destruct (accepted (v, moved, e)).
      + rewrite (bind_run _ _ _ _ _ _ (Hacc eq_refl)). unfold ret.
        cbv beta iota.
        do 3 eexists. split; [reflexivity|]. split; [reflexivity|].
        split; [constructor|].
        intros l' Hl'. injection Hl' as <-. split; [constructor|reflexivity].
      + destruct (Hrej eq_refl) as (s' & logs & Hrun & Ho & Hc).
        rewrite (bind_stop _ _ _ _ _ _ Hrun).
        do 3 eexists. split; [reflexivity|]. split; [assumption|].
        split; [apply before_probing_halt; assumption | discriminate].
    - unfold bind, safe_atoi, undefined.
      do 3 eexists. split; [reflexivity|]. split; [reflexivity|].
      split; [constructor | discriminate]. }
  destruct (Ascii.eqb c "v").
  { unfold bind, get_verbosity, set_verbosity, ret.
    destruct (verbosity s <=? 2); cbv beta iota; cbn [app];
      (do 3 eexists; split; [reflexivity|]; split; [reflexivity|];
       split; [constructor|]);
      intros l' Hl'; injection Hl' as <-;
      (split; [constructor|reflexivity]). }
  destruct (Ascii.eqb c "q").
  { unfold bind, get_verbosity, set_verbosity, ret.
    destruct (verbosity s >=? 1); cbv beta iota; cbn [app];
      (do 3 eexists; split; [reflexivity|]; split; [reflexivity|];
       split; [constructor|]);
      intros l' Hl'; injection Hl' as <-;
      (split; [constructor|reflexivity]). }
  destruct (Ascii.eqb c "?").
  { unfold ret. do 3 eexists. split; [reflexivity|]. split; [reflexivity|].
    split; [constructor|].
    intros l' Hl'. injection Hl' as <-. split; [constructor|reflexivity]. }
  unfold abort, halt_with.
  do 3 eexists. split; [reflexivity|]. split; [reflexivity|].
  split; [|discriminate].
  constructor; [right; eauto | constructor].
Qed.

(** The option loop: nothing but output is called, and when every option
    is accepted the array keeps its length. *)
Lemma parse_options_run (opts : list (ascii * option string)) (l : locals)
    (s : @pstate W) :
  exists res s' evs,
    parse_options opts l s = (res, s', evs) /\
    child s' = child s /\ before_probing evs /\
    (forall l', res = Ret l' ->
       only_output evs /\
       length (exitcode_map l') = length (exitcode_map l)).
Proof.
  revert l s. induction opts as [|[c optarg] opts IH]; intros l s.
  - exists (Ret l), s, []. split; [reflexivity|]. split; [reflexivity|].
    split; [constructor|].
    intros l' Hl'. injection Hl' as <-. split; [constructor|reflexivity].
  - cbn [parse_options].
    destruct (handle_option_run c optarg l s)
      as (res & s1 & e1 & Hrun & Hc & Hb & Hret).
    destruct res as [l1|r].
    + rewrite (bind_run _ _ _ _ _ _ Hrun). cbv beta.
      destruct (IH l1 s1) as (res & s2 & e2 & Hrun2 & Hc2 & Hb2 & Hret2).
      rewrite Hrun2. cbv beta iota.
      destruct (Hret l1 eq_refl) as [Ho1 Hlen1].
      exists res, s2, (e1 ++ e2). split; [reflexivity|].
      split; [congruence|].
      split; [apply before_probing_app; assumption|].
      intros l' Hl'. destruct (Hret2 l' Hl') as [Ho2 Hlen2].
      split; [apply only_output_app; assumption | congruence].
    + rewrite (bind_stop _ _ _ _ _ _ Hrun).
      exists (Stop r), s1, e1. split; [reflexivity|].
      split; [assumption|]. split; [assumption|discriminate].
Qed.

Lemma parse_options_app (a b : list (ascii * option string)) (l : locals)
    (s : @pstate W) :
  parse_options (a ++ b) l s = bind (parse_options a l) (parse_options b) s.
Proof.
  revert l s. induction a as [|[c optarg] a IH]; intros l s.
  - cbn [app parse_options]. unfold bind, ret.
    destruct (parse_options b l s) as [[r s'] evs]. reflexivity.
  - cbn [app parse_options]. rewrite bind_assoc.
    apply bind_ext. intros l1 s1. apply IH.
Qed.

(** [main] is the option loop, started with the array of the first loop,
    no check method and [timeout = 2], followed by the rest. *)
Lemma main_unfold (fuel : nat) (opts : list (ascii * option string))
    (paths : list string) (s : @pstate W) :
  main fuel opts paths s =
  bind (parse_options opts (Locals identity_map 0 0 2))
    (fun l => after_options fuel l paths) s.
Proof.
  unfold main.
  rewrite (bind_run _ _ _ _ _ _ (init_exitcode_map_run s)). cbv beta.
  apply run_nil_l.
Qed.

(** An option other than [-t] does not touch [timeout]. *)
Lemma handle_option_keeps_timeout (c : ascii) (optarg : option string)
    (l l' : locals) (s s' : @pstate W) (evs : list event) :
  c <> "t"%char ->
  handle_option c optarg l s = (Ret l', s', evs) ->
  timeout l' = timeout l.
Proof.
  intros Hc. unfold handle_option.
  destruct (Ascii.eqb c "h");
    [unfold bind, exit, halt_with;
     destruct (usage s) as [[[|] ?] ?]; discriminate|].
  destruct (Ascii.eqb c "i").
  { unfold bind.
    destruct (safe_atoi optarg s) as [[[tmp|] ?] ?]; [|discriminate].
    destruct (array_write _ _ _ _) as [[[m|] ?] ?]; [|discriminate].
    unfold ret. intros H. injection H as <- _ _. reflexivity. }
  destruct (Ascii.eqb c "m").
  { unfold bind.
    destruct (parse_check_method optarg s) as [[[cm|] ?] ?]; [|discriminate].
    unfold ret. intros H. injection H as <- _ _. reflexivity. }
  destruct (Ascii.eqb_spec c "t") as [->|_]; [contradiction|].
  destruct (Ascii.eqb c "v").
  { unfold bind, get_verbosity, set_verbosity, ret.
    destruct (verbosity s <=? 2); intros H; injection H as <- _ _; reflexivity. }
  destruct (Ascii.eqb c "q").
  { unfold bind, get_verbosity, set_verbosity, ret.
    destruct (verbosity s >=? 1); intros H; injection H as <- _ _; reflexivity. }
  destruct (Ascii.eqb c "?").
  { unfold ret. intros H. injection H as <- _ _. reflexivity. }
  unfold abort, halt_with. discriminate.
Qed.

Lemma parse_options_keeps_timeout (opts : list (ascii * option string))
    (l l' : locals) (s s' : @pstate W) (evs : list event) :
  Forall (fun o => fst o <> "t"%char) opts ->
  parse_options opts l s = (Ret l', s', evs) ->
  timeout l' = timeout l.
Proof.
  intros Hall. revert l s evs.
  induction Hall as [|[c optarg] opts Hc _ IH]; intros l s evs.
  - cbn. unfold ret. intros H. injection H as <- _ _. reflexivity.
  - cbn [parse_options]. unfold bind.
    destruct (handle_option c optarg l s) as [[[l1|] s1] e1] eqn:H1;
      [|discriminate].
    destruct (parse_options opts l1 s1) as [[r s2] e2] eqn:H2.
    intros H. injection H as -> -> _.
    rewrite (IH _ _ _ H2).
    eapply handle_option_keeps_timeout; [exact Hc | exact H1].
Qed.

Lemma handle_option_t (optarg : option string) (l : locals) :
  handle_option "t" optarg l =
  bind (safe_atoi optarg) (fun t =>
    ret (Locals (exitcode_map l) (check_method_set l) (check_method l) t)
      : @M W locals).
Proof. reflexivity. Qed.

Lemma handle_option_i (optarg : option string) (l : locals) :
  handle_option "i" optarg l =
  bind (safe_atoi optarg) (fun tmp =>
    bind (array_write (exitcode_map l) tmp 0) (fun m =>
      ret (Locals m (check_method_set l) (check_method l) (timeout l))
        : @M W locals)).
Proof. reflexivity. Qed.

Lemma handle_option_m (optarg : option string) (l : locals) :
  handle_option "m" optarg l =
  bind (parse_check_method optarg) (fun cm =>
    ret (Locals (exitcode_map l) 1 cm (timeout l)) : @M W locals).
Proof. reflexivity. Qed.

(** C9 (amended).  [timeout] starts at 2 and keeps that value through
    options other than [-t].  For the argument [str] of a [-t] that
    follows accepted options, let [strtol] give the value [v].  The
    argument is accepted exactly when [errno] was not [ERANGE] already and
    [str] has a number at its front that fits [int]; [timeout] then
    becomes that number, which need not be positive, and what follows the
    digits is not looked at.  Otherwise [main] reports the error and
    exits with [EINVAL], having called nothing but output functions. *)
Theorem timeout_option_parsing (fuel : nat)
    (pre post : list (ascii * option string)) (str : string)
    (paths : list string) (s s1 : @pstate W) (l1 : locals)
    (e1 : list event) :
  parse_options pre (Locals identity_map 0 0 2) s = (Ret l1, s1, e1) ->
  (Forall (fun o => fst o <> "t"%char) pre -> timeout l1 = 2) /\
  exists v moved e,
    strtol str (errno s1) = (v, moved, e) /\
    (accepted (v, moved, e) = true <->
     errno s1 <> ERANGE /\
     exists z, front_number str = Some z /\ INT_MIN <= z <= INT_MAX /\ v = z) /\
    (accepted (v, moved, e) = false ->
     exists s' logs,
       main fuel (pre ++ ("t"%char, Some str) :: post) paths s =
         (Stop (Exited EINVAL), s', e1 ++ logs ++ [Halt (h_exit EINVAL)]) /\
       only_output e1 /\ only_output logs) /\
    (accepted (v, moved, e) = true ->
     INT_MIN <= v <= INT_MAX /\
     parse_options (pre ++ [("t"%char, Some str)]) (Locals identity_map 0 0 2) s =
       (Ret (Locals (exitcode_map l1) (check_method_set l1) (check_method l1) v),
        PState (verbosity s1) (child s1) e (world s1), e1)).
Proof.
  intros Hpre. split.
  { intros Hall.
    apply (parse_options_keeps_timeout pre _ l1 s s1 e1 Hall Hpre). }
  destruct (safe_atoi_run str s1) as (v & moved & e & Hs & Hacc & Hrej).
  exists v, moved, e. split; [exact Hs|].
  split; [apply (accepted_front_number str (errno s1)); exact Hs|]. split.
  - intros Ha. destruct (Hrej Ha) as (s' & logs & Hrun & Ho & _).
    exists s', logs.
    split.
    + rewrite main_unfold.
      rewrite (bind_cong_l _ _ _ _ (parse_options_app _ _ _ _)), bind_assoc.
      rewrite (bind_run _ _ _ _ _ _ Hpre). cbv beta.
      cbn [parse_options]. rewrite !bind_assoc, handle_option_t, bind_assoc.
      rewrite (bind_stop _ _ _ _ _ _ Hrun). reflexivity.
    + split; [|assumption].
      destruct (parse_options_run pre (Locals identity_map 0 0 2) s)
        as (res & s2 & e2 & Hrun2 & _ & _ & Hret).
      rewrite Hpre in Hrun2. injection Hrun2 as <- _ <-.
      apply (Hret l1 eq_refl).
  - intros Ha. split.
    + unfold accepted in Ha. lia.
    + rewrite parse_options_app.
      rewrite (bind_run _ _ _ _ _ _ Hpre). cbv beta.
      cbn [parse_options]. rewrite handle_option_t, bind_assoc.
      rewrite (bind_run _ _ _ _ _ _ (Hacc Ha)). cbv beta.
      unfold bind, ret. rewrite !app_nil_r. reflexivity.
Qed.

(** An option other than [-m] does not touch the check method. *)
Lemma handle_option_keeps_method (c : ascii) (optarg : option string)
    (l l' : locals) (s s' : @pstate W) (evs : list event) :
  c <> "m"%char ->
  handle_option c optarg l s = (Ret l', s', evs) ->
  check_method_set l' = check_method_set l /\ check_method l' = check_method l.
Proof.
  intros Hc. unfold handle_option.
  destruct (Ascii.eqb c "h");
    [unfold bind, exit, halt_with;
     destruct (usage s) as [[[|] ?] ?]; discriminate|].
  destruct (Ascii.eqb c "i").
  { unfold bind.
    destruct (safe_atoi optarg s) as [[[tmp|] ?] ?]; [|discriminate].
    destruct (array_write _ _ _ _) as [[[m|] ?] ?]; [|discriminate].
    unfold ret. intros H. injection H as <- _ _. split; reflexivity. }
  destruct (Ascii.eqb_spec c "m") as [->|_]; [contradiction|].
  destruct (Ascii.eqb c "t").
  { unfold bind.
    destruct (safe_atoi optarg s) as [[[t|] ?] ?]; [|discriminate].
    unfold ret. intros H. injection H as <- _ _. split; reflexivity. }
  destruct (Ascii.eqb c "v").
  { unfold bind, get_verbosity, set_verbosity, ret.
    destruct (verbosity s <=? 2); intros H; injection H as <- _ _;
      split; reflexivity. }
  destruct (Ascii.eqb c "q").
  { unfold bind, get_verbosity, set_verbosity, ret.
    destruct (verbosity s >=? 1); intros H; injection H as <- _ _;
      split; reflexivity. }
  destruct (Ascii.eqb c "?").
  { unfold ret. intros H. injection H as <- _ _. split; reflexivity. }
  unfold abort, halt_with. discriminate.
Qed.

Lemma parse_options_keeps_method (opts : list (ascii * option string))
    (l l' : locals) (s s' : @pstate W) (evs : list event) :
  Forall (fun o => fst o <> "m"%char) opts ->
  parse_options opts l s = (Ret l', s', evs) ->
  check_method_set l' = check_method_set l /\ check_method l' = check_method l.
Proof.
  intros Hall. revert l s evs.
  induction Hall as [|[c optarg] opts Hc _ IH]; intros l s evs.
  - cbn. unfold ret. intros H. injection H as <- _ _. split; reflexivity.
  - cbn [parse_options]. unfold bind.
    destruct (handle_option c optarg l s) as [[[l1|] s1] e1] eqn:H1;
      [|discriminate].
    destruct (parse_options opts l1 s1) as [[r s2] e2] eqn:H2.
    intros H. injection H as -> -> _.
    destruct (IH _ _ _ H2) as [-> ->].
    eapply handle_option_keeps_method; [exact Hc | exact H1].
Qed.

(** C10 (amended).  Without [-m] among the accepted options, the check
    method becomes both probes.  With [-m str] accepted, it is the set of
    the methods that the tokens of [str] name, and the default is not
    applied: the set is empty exactly when [str] has no token (it is
    empty or holds only commas).  With the empty set [check_mountpoint]
    calls nothing and returns 0. *)
Theorem check_method_selection (path str : string)
    (opts : list (ascii * option string)) (l : locals) (s : @pstate W) :
  (forall l1 s1 e1,
     Forall (fun o => fst o <> "m"%char) opts ->
     parse_options opts (Locals identity_map 0 0 2) s = (Ret l1, s1, e1) ->
     exists s' logs,
       default_check_method l1 s1 =
         (Ret (Locals (exitcode_map l1) 0
                 (Z.lor CHECK_METHOD_STAT CHECK_METHOD_READDIR) (timeout l1)),
          s', logs) /\
       only_output logs) /\
  (forall l' s' evs,
     handle_option "m" (Some str) l s = (Ret l', s', evs) ->
     check_method_set l' = 1 /\
     check_method l' = methods_of_tokens (strtok_all str ",") 0 /\
     0 <= check_method l' <= 3 /\
     (check_method l' = 0 <-> strtok_all str "," = []) /\
     default_check_method l' s' = (Ret l', s', [])) /\
  check_mountpoint path 0 s = (Ret 0, s, []).
Proof.
  split; [|split].
  - intros l1 s1 e1 Hall Hrun.
    destruct (parse_options_keeps_method opts _ l1 s s1 e1 Hall Hrun)
      as [Hset Hcm].
    cbn [check_method_set check_method] in Hset, Hcm.
    unfold default_check_method. rewrite Hset, Hcm. cbn [Z.eqb].
    run_log. unfold ret. cbv beta iota.
    do 2 eexists. split; [reflexivity|].
    apply only_output_app; [assumption|constructor].
  - intros l' s' evs. rewrite handle_option_m. unfold parse_check_method.
    destruct (parse_tokens_run (strtok_all str ",") 0 s)
      as (res & s1 & e1 & Hrun & _ & _ & Hres).
    destruct res as [m|r].
    + rewrite (bind_run _ _ _ _ _ _ Hrun). unfold ret. cbv beta iota.
      intros H. injection H as <- <- _.
      destruct Hres as (_ & Hm & Hall). cbn [check_method_set check_method].
      destruct (methods_of_tokens_bits (strtok_all str ",") 0) as [Hr Hz];
        [lia | assumption |].
      rewrite <- Hm in Hr, Hz.
      split; [reflexivity|]. split; [assumption|]. split; [assumption|].
      split; [|reflexivity].
      split; [intros H0; apply Hz in H0; tauto | intros Hn; apply Hz; auto].
    + rewrite (bind_stop _ _ _ _ _ _ Hrun). discriminate.
  - reflexivity.
Qed.

(** The parent's last steps: the value of [wait_for_child] is looked up
    in the array and the process exits with what is found there. *)
Lemma parent_run (fuel : nat) (tmo : Z) (s s2 : @pstate W)
    (r : Z) (e2 : list event) :
  wait_for_child fuel tmo s = (Ret r, s2, e2) ->
  0 <= r <= 255 /\
  exists s3 logs,
    only_output logs /\
    forall m code,
      length m = 256%nat ->
      m !! Z.to_nat r = Some code ->
      parent fuel tmo m s =
        (Stop (Exited code), s3, e2 ++ logs ++ [Halt (h_exit code)]).
Proof.
  intros Hwait.
  assert (Hr : 0 <= r <= 255).
  { destruct (wait_for_child_value _ _ _ _ _ _ Hwait) as [status ->].
    apply status_code_range. }
  split; [exact Hr|].
  destruct (log_fn_run 3 "wait_for_child(%d) = %d" s2)
    as (v1 & e3 & w3 & l1 & H1 & _ & Ho1 & _).
  destruct (log_fn_run 2 "Check process exited with status code %d"
              (PState (verbosity s2) (child s2) e3 w3))
    as (v2 & e4 & w4 & l2 & H2 & _ & Ho2 & _).
  cbn [verbosity child] in H2.
  exists (PState (verbosity s2) (child s2) e4 w4), (l1 ++ l2).
  split; [apply only_output_app; assumption|].
  intros m code Hlen Hcode.
  unfold parent. rewrite (bind_run _ _ _ _ _ _ Hwait). cbv beta.
  rewrite (bind_run (debug _) _ _ _ _ _ H1). cbv beta.
  rewrite (bind_run (verbose _) _ _ _ _ _ H2). cbv beta.
  match goal with
  | |- context [bind (array_read m r) _ ?s0] =>
      destruct (array_read_run m r s0) as (v & Hv & Hread); [lia|];
      rewrite (bind_run _ _ _ _ _ _ Hread); cbv beta
  end.
  rewrite Hv in Hcode. injection Hcode as ->.
  unfold exit, halt_with. cbv beta iota. cbn [app].
  rewrite <- !app_assoc. reflexivity.
Qed.

(** C5.  Let [-i cstr] be accepted with a code [C] of the array,
    [0 <= C <= 255].  The option changes nothing but the entry [C] of
    [exitcode_map], set to 0: check method and timeout are kept and no
    call is made.  For every run of the parent whose [wait_for_child]
    returns [ret], the exit status without the option is the entry
    [ret] of the array as it was, and the exit status with the option is
    0 when [ret = C] and that same entry otherwise, the calls made being
    the same.  The worker is not given the array at all. *)
Theorem ignore_errno_suppresses_exactly (cstr : string) (C : Z) (l : locals)
    (s0 s1 : @pstate W) (e0 : list event) :
  length (exitcode_map l) = 256%nat ->
  safe_atoi (Some cstr) s0 = (Ret C, s1, e0) ->
  0 <= C <= 255 ->
  exists l',
    handle_option "i" (Some cstr) l s0 = (Ret l', s1, e0) /\
    exitcode_map l' = <[Z.to_nat C := 0]> (exitcode_map l) /\
    check_method_set l' = check_method_set l /\
    check_method l' = check_method l /\
    timeout l' = timeout l /\
    (forall fuel s ret s2 e2,
       wait_for_child fuel (timeout l) s = (Ret ret, s2, e2) ->
       exists code s3 logs,
         only_output logs /\
         0 <= ret <= 255 /\
         exitcode_map l !! Z.to_nat ret = Some code /\
         parent fuel (timeout l) (exitcode_map l) s =
           (Stop (Exited code), s3, e2 ++ logs ++ [Halt (h_exit code)]) /\
         parent fuel (timeout l') (exitcode_map l') s =
           (Stop (Exited (if ret =? C then 0 else code)), s3,
            e2 ++ logs ++ [Halt (h_exit (if ret =? C then 0 else code))])) /\
    (forall path, worker path (check_method l') = worker (W:=W) path (check_method l)).
Proof.
  intros Hlen Hatoi HC.
  exists (Locals (<[Z.to_nat C := 0]> (exitcode_map l)) (check_method_set l)
            (check_method l) (timeout l)).
  cbn [exitcode_map check_method_set check_method timeout].
  split.
  { rewrite handle_option_i. rewrite (bind_run _ _ _ _ _ _ Hatoi). cbv beta.
    unfold bind at 1. rewrite array_write_run, Hlen.
    replace ((0 <=? C) && (C <? Z.of_nat 256)) with true
      by (symmetry; apply andb_true_intro;
          split; [apply Z.leb_le | apply Z.ltb_lt]; lia).
    unfold ret. rewrite !app_nil_r. reflexivity. }
  do 4 (split; [reflexivity|]).
  split; [|reflexivity].
  intros fuel s ret s2 e2 Hwait.
  destruct (parent_run fuel (timeout l) s s2 ret e2 Hwait)
    as (Hret & s3 & logs & Ho & Hp).
  destruct (exitcode_map l !! Z.to_nat ret) as [code|] eqn:Hcode;
    [|apply lookup_ge_None in Hcode; lia].
  exists code, s3, logs. split; [exact Ho|].
  split; [exact Hret|]. split; [reflexivity|].
  split; [apply Hp; [exact Hlen | exact Hcode]|].
  apply Hp; [rewrite length_insert; exact Hlen|].
  destruct (Z.eqb_spec ret C) as [->|Hne].
  - apply list_lookup_insert_eq. lia.
  - rewrite list_lookup_insert_ne by lia. exact Hcode.
Qed.

(** C8.  The two loops of [main] over the array stay within it.  The
    index read at the final translation, the value of [wait_for_child],
    always lies in 0..255, so that read is within bounds.  The index
    written by [-i] is whatever [safe_atoi] accepted, unchecked: the write
    is within bounds exactly when that integer lies in 0..255, and is
    undefined behaviour otherwise. *)
Theorem exitcode_map_accesses (fuel : nat) (tmo : Z) (str : string)
    (l : locals) (s : @pstate W) :
  length (exitcode_map l) = 256%nat ->
  init_exitcode_map s = (Ret identity_map, s, []) /\
  length identity_map = Z.to_nat ERRNO_MAX /\
  (exists s' logs, dump_ignored (exitcode_map l) s = (Ret tt, s', logs)) /\
  (forall ret s' evs,
     wait_for_child fuel tmo s = (Ret ret, s', evs) ->
     0 <= ret <= 255 /\
     exists code, array_read (exitcode_map l) ret s' = (Ret code, s', [])) /\
  (forall N s1 e1,
     safe_atoi (Some str) s = (Ret N, s1, e1) ->
     (0 <= N <= 255 ->
      handle_option "i" (Some str) l s =
        (Ret (Locals (<[Z.to_nat N := 0]> (exitcode_map l))
                (check_method_set l) (check_method l) (timeout l)), s1, e1)) /\
     (~ 0 <= N <= 255 ->
      handle_option "i" (Some str) l s = (Stop Undefined, s1, e1))).
Proof.
  intros Hlen.
  split; [apply init_exitcode_map_run|].
  split; [reflexivity|].
  split.
  { destruct (dump_ignored_run (exitcode_map l) s Hlen) as (s' & logs & H & _).
    exists s', logs. exact H. }
  split.
  - intros ret s' evs Hwait.
    assert (Hr : 0 <= ret <= 255).
    { destruct (wait_for_child_value _ _ _ _ _ _ Hwait) as [status ->].
      apply status_code_range. }
    split; [exact Hr|].
    destruct (array_read_run (exitcode_map l) ret s') as (code & _ & Hread);
      [lia|].
    exists code. exact Hread.
  - intros N s1 e1 Hatoi.
    rewrite handle_option_i, (bind_run _ _ _ _ _ _ Hatoi). cbv beta.
    unfold bind at 1 2. rewrite array_write_run, Hlen.
    split; intros HN.
    + replace ((0 <=? N) && (N <? Z.of_nat 256)) with true
        by (symmetry; apply andb_true_intro;
            split; [apply Z.leb_le | apply Z.ltb_lt]; lia).
      unfold ret. rewrite !app_nil_r. reflexivity.
    + replace ((0 <=? N) && (N <? Z.of_nat 256)) with false
        by (symmetry; apply andb_false_iff;
            destruct (Z.leb_spec 0 N); [right; apply Z.ltb_ge; lia | left; reflexivity]).
      rewrite !app_nil_r. reflexivity.
Qed.

End CommandLine.

Section Sentinels.

Context {W : Type} {os : OS W}.

Lemma exit_status_small (v : Z) : 0 <= v <= 255 -> exit_status v = v.
Proof.
  intros Hv. unfold exit_status. change 255 with (Z.ones 8).
  rewrite Z.land_ones by lia. apply Z.mod_small.
  change (2 ^ 8) with 256. lia.
Qed.

(** C6 (amended).  The two sentinels differ from each other.  When the
    error numbers that the calls of a run leave in [errno] lie in 0..254,
    the value [v] of [check_mountpoint] is an exit status that the
    supervisor reports unchanged, and it is not [EUNKNOWN].  Nothing
    keeps it apart from [ETIMEDOUT], which is one of those error
    numbers. *)
Theorem sentinels_and_probe_codes (path : string) (check_method : Z)
    (s s' : @pstate W) (v : Z) (evs : list event) :
  check_mountpoint path check_method s = (Ret v, s', evs) ->
  (forall c r, In (Call c r) evs -> 0 <= err r <= 254) ->
  outcome_code TimedOut <> outcome_code Indeterminate /\
  exit_status v = v /\
  status_code (encode_status (ExitedWith (exit_status v))) = v /\
  v <> outcome_code Indeterminate.
Proof.
  intros Hrun Herr.
  destruct (check_mountpoint_value path check_method s)
    as (v0 & s0 & evs0 & Hrun0 & Hv).
  rewrite Hrun in Hrun0. injection Hrun0 as <- _ <-.
  assert (Hrange : 0 <= v <= 254).
  { destruct Hv as [->|(c & r & Hin & ->)]; [lia | eauto]. }
  split; [discriminate|].
  rewrite exit_status_small by lia.
  split; [reflexivity|]. split.
  - rewrite status_code_encode by (cbn; lia).
    cbn [classify]. destruct (Z.eqb_spec v 0) as [->|_]; reflexivity.
  - cbn [outcome_code]. unfold EUNKNOWN. lia.
Qed.

End Sentinels.

(** ** Runs on the scripted operating system *)

(** C6, on a run: [open] fails with [ENOENT]. *)
Lemma sentinels_and_probe_codes_witness :
  outcome_code TimedOut <> outcome_code Indeterminate /\
  exit_status 2 = 2 /\
  status_code (encode_status (ExitedWith (exit_status 2))) = 2 /\
  2 <> outcome_code Indeterminate.
Proof.
  apply (sentinels_and_probe_codes "/mnt" 3 (initial [Reply (-1) 0 2])
           (PState 1 0 2 []) 2
           [Call (c_open "/mnt" (Z.lor O_RDONLY O_SYNC)) (Reply (-1) 0 2)]).
  - reflexivity.
  - intros c r [H|[]]. injection H as _ <-. cbn. lia.
Defined.

(** C6 as stated fails: [open] fails with [ETIMEDOUT], as it can on a
    mount that reports timeouts, the worker exits with that code, and the
    supervisor gives it the value it also gives a worker killed by the
    timeout. *)
Lemma timed_out_sentinel_is_a_probe_code :
  exists s' evs,
    check_mountpoint "/mnt" 3 (initial [Reply (-1) 0 ETIMEDOUT]) =
      (Ret ETIMEDOUT, s', evs) /\
    status_code (encode_status (ExitedWith (exit_status ETIMEDOUT))) =
      outcome_code TimedOut /\
    status_code (encode_status (KilledBy SIGKILL false)) =
      outcome_code TimedOut.
Proof. do 2 eexists. repeat split. Qed.

(** C5, on a run: [-i 110], and a worker that the handler killed.
    Without the option the parent exits with 110, with it with 0, after
    the same calls. *)
Lemma ignore_errno_suppresses_exactly_witness :
  handle_option "i" (Some "110") (Locals identity_map 0 0 2) (initial []) =
    (Ret (Locals (<[110%nat := 0]> identity_map) 0 0 2),
     initial ([] : list reply), []) /\
  exists s3 logs,
    parent 5 2 identity_map
      (PState 1 77 0 [Reply 0 0 0; Reply 77 SIGKILL 0]) =
      (Stop (Exited 110), s3,
       [Call (c_alarm 2) (Reply 0 0 0);
        Call (c_waitpid 77 0) (Reply 77 SIGKILL 0);
        Call (c_alarm 0) (Reply 0 0 0)] ++ logs ++ [Halt (h_exit 110)]) /\
    parent 5 2 (<[110%nat := 0]> identity_map)
      (PState 1 77 0 [Reply 0 0 0; Reply 77 SIGKILL 0]) =
      (Stop (Exited 0), s3,
       [Call (c_alarm 2) (Reply 0 0 0);
        Call (c_waitpid 77 0) (Reply 77 SIGKILL 0);
        Call (c_alarm 0) (Reply 0 0 0)] ++ logs ++ [Halt (h_exit 0)]).
Proof.
  destruct (ignore_errno_suppresses_exactly "110" 110
              (Locals identity_map 0 0 2) (initial []) (initial []) []
              eq_refl eq_refl ltac:(lia))
    as (l' & H1 & H2 & H3 & H4 & H5 & Hparent & _).
  destruct l' as [m' set' method' tmo'].
  cbn [exitcode_map check_method_set check_method timeout] in *.
  subst m' set' method' tmo'.
  split; [exact H1|].
  destruct (Hparent 5%nat (PState 1 77 0 [Reply 0 0 0; Reply 77 SIGKILL 0])
              110 (PState 1 77 0 [])
              [Call (c_alarm 2) (Reply 0 0 0);
               Call (c_waitpid 77 0) (Reply 77 SIGKILL 0);
               Call (c_alarm 0) (Reply 0 0 0)])
    as (code & s3 & logs & _ & _ & Hcode & Hold & Hnew);
    [vm_compute; reflexivity|].
  vm_compute in Hcode. injection Hcode as <-.
  exists s3, logs. split; [exact Hold | exact Hnew].
Defined.

(** C5 as stated fails for a code outside the array: [-i 256] is
    accepted by [safe_atoi], no outcome code is 256, and yet the run is
    not left as it was.  Without the option the worker exits with 2 and
    so does [main]; with it the write [exitcode_map[256] = 0] is outside
    the array and the behaviour of the run is undefined. *)
Lemma ignore_errno_outside_the_array :
  safe_atoi (Some "256") (initial ([] : list reply)) =
    (Ret 256, initial [], []) /\
  (forall status, status_code status <> 256) /\
  (exists s' evs,
     main 5 [] ["/mnt"]
       (initial [Reply 0 0 0; Reply 0 0 0; Reply 0 0 0; Reply 77 0 0;
                 Reply 0 0 0;
                 Reply 77 (encode_status (ExitedWith 2)) 0]) =
       (Stop (Exited 2), s', evs)) /\
  (exists s' evs,
     main 5 [("i"%char, Some "256")] ["/mnt"]
       (initial [Reply 0 0 0; Reply 0 0 0; Reply 0 0 0; Reply 77 0 0;
                 Reply 0 0 0;
                 Reply 77 (encode_status (ExitedWith 2)) 0]) =
       (Stop Undefined, s', evs)).
Proof.
  split; [reflexivity|]. split.
  - intros status H. pose proof (status_code_range status). lia.
  - split; do 2 eexists; vm_compute; reflexivity.
Qed.

(** C8, on a run: the array of the first loop, and [-i 7]. *)
Lemma exitcode_map_accesses_witness :
  length (exitcode_map (Locals identity_map 0 0 2)) = 256%nat /\
  init_exitcode_map (initial ([] : list reply)) =
    (Ret identity_map, initial [], []).
Proof.
  split; [reflexivity|].
  apply (exitcode_map_accesses 1 2 "7" (Locals identity_map 0 0 2)
           (initial []) eq_refl).
Defined.

(** [-i 256] and [-i -1] are accepted by [safe_atoi] and write outside the
    array. *)
Lemma ignore_errno_out_of_bounds :
  handle_option "i" (Some "256") (Locals identity_map 0 0 2)
    (initial ([] : list reply)) = (Stop Undefined, initial [], []) /\
  handle_option "i" (Some "-1") (Locals identity_map 0 0 2)
    (initial ([] : list reply)) = (Stop Undefined, initial [], []).
Proof. split; reflexivity. Qed.

(** C9, on a run: [-v -t abc]. *)
Lemma timeout_option_parsing_witness :
  parse_options [("v"%char, None)] (Locals identity_map 0 0 2)
    (initial ([] : list reply)) =
    (Ret (Locals identity_map 0 0 2), PState 2 0 0 [], []) /\
  exists s' logs,
    main 5 [("v"%char, None); ("t"%char, Some "abc")] ["/mnt"]
      (initial ([] : list reply)) =
    (Stop (Exited EINVAL), s', [] ++ logs ++ [Halt (h_exit EINVAL)]).
Proof.
  split; [reflexivity|].
  destruct (timeout_option_parsing 5 [("v"%char, None)] [] "abc" ["/mnt"]
              (initial []) (PState 2 0 0 []) (Locals identity_map 0 0 2) []
              eq_refl)
    as (_ & v & moved & e & Hs & _ & Hrej & _).
  injection Hs as <- <- <-.
  destruct (Hrej eq_refl) as (s' & logs & H & _).
  exists s', logs. exact H.
Defined.

(** C9 as stated fails: ["0"] and ["-5"] are accepted and are not
    positive, ["-5"] arming the alarm for 4294967291 seconds, and
    ["12abc"], which is not an integer, is accepted as 12. *)
Lemma timeout_accepts_nonpositive_and_trailing :
  safe_atoi (Some "0") (initial ([] : list reply)) = (Ret 0, initial [], []) /\
  safe_atoi (Some "-5") (initial ([] : list reply)) = (Ret (-5), initial [], []) /\
  ~ 0 < -5 /\
  to_unsigned (-5) = 4294967291 /\
  safe_atoi (Some "12abc") (initial ([] : list reply)) = (Ret 12, initial [], []).
Proof. repeat split. lia. Qed.

(** C10 as stated fails: [-m ,] is accepted and selects no method; the
    worker then calls neither probe and exits with 0. *)
Lemma empty_method_list_runs_no_probe :
  parse_check_method (Some ",") (initial ([] : list reply)) =
    (Ret 0, initial [], []) /\
  exists s' evs,
    main 5 [("m"%char, Some ",")] ["/mnt"]
      (initial [Reply 0 0 0; Reply 0 0 0; Reply 0 0 0; Reply 0 0 0]) =
      (Stop (Exited 0), s', evs) /\
    In (Call c_fork (Reply 0 0 0)) evs /\
    Forall (fun e => is_stat_call e = false /\ is_readdir_call e = false) evs.
Proof.
  split; [reflexivity|].
  do 2 eexists. split; [reflexivity|].
  split; [cbn; tauto|]. repeat constructor.
Qed.

(** The handler on three runs: no child recorded; [kill] succeeds;
    [kill] fails. *)
Lemma handle_sigalrm_runs :
  handle_sigalrm SIGALRM (PState 1 0 0 [Reply 0 0 0]) =
    (Ret tt, PState 1 0 0 [Reply 0 0 0], []) /\
  handle_sigalrm SIGALRM (PState 1 77 0 [Reply 0 0 0]) =
    (Ret tt, PState 1 77 0 [], [Call (c_kill 77 SIGKILL) (Reply 0 0 0)]) /\
  handle_sigalrm SIGALRM (PState 1 77 0 [Reply (-1) 0 3]) =
    (Stop (QuickExited 255), PState 1 77 3 [],
     [Call (c_kill 77 SIGKILL) (Reply (-1) 0 3); Halt (h__exit 255)]).
Proof. repeat split. Qed.

(** ** Invariants of the globals and of the calls made *)

Section KeepingRules.

Context {W : Type} {os : OS W}.
Variable I : Z -> Z -> Prop.
Variable P : event -> Prop.

Lemma keeps_ret {A} (a : A) : keeps (W:=W) I P (ret a).
Proof.
  intros s s' r evs HI H. unfold ret in H. injection H as _ <- <-.
  split; [assumption|constructor].
Qed.

Lemma keeps_bind {A B} (m : M A) (k : A -> M B) :
  keeps (W:=W) I P m -> (forall a, keeps I P (k a)) -> keeps I P (bind m k).
Proof.
  intros Hm Hk s s' r evs HI H. unfold bind in H.
  destruct (m s) as [[[a|st] s1] e1] eqn:Hms.
  - destruct (Hm _ _ _ _ HI Hms) as [HI1 He1].
    destruct (k a s1) as [[r2 s2] e2] eqn:Hks.
    destruct (Hk a _ _ _ _ HI1 Hks) as [HI2 He2].
    injection H as _ <- <-. split; [assumption|].
    apply Forall_app. split; assumption.
  - injection H as _ <- <-. apply (Hm _ _ _ _ HI Hms).
Qed.

Lemma keeps_sys (c : call) :
  (forall r, P (Call c r)) -> keeps (W:=W) I P (sys c).
Proof.
  intros HP s s' r evs HI H. rewrite sys_run in H.
  injection H as _ <- <-. cbn [verbosity child].
  split; [assumption|]. constructor; [apply HP|constructor].
Qed.

Lemma keeps_waitpid (pid options : Z) :
  (forall r, P (Call (c_waitpid pid options) r)) ->
  keeps (W:=W) I P (waitpid pid options).
Proof.
  intros HP s s' r evs HI H. rewrite waitpid_run in H.
  injection H as _ <- <-. cbn [verbosity child].
  split; [assumption|]. constructor; [apply HP|constructor].
Qed.

Lemma keeps_get_errno : keeps (W:=W) I P get_errno.
Proof.
  intros s s' r evs HI H. injection H as _ <- <-.
  split; [assumption|constructor].
Qed.

Lemma keeps_set_errno (e : Z) : keeps (W:=W) I P (set_errno e).
Proof.
  intros s s' r evs HI H. injection H as _ <- <-.
  split; [assumption|constructor].
Qed.

Lemma keeps_get_child : keeps (W:=W) I P get_child.
Proof.
  intros s s' r evs HI H. injection H as _ <- <-.
  split; [assumption|constructor].
Qed.

Lemma keeps_get_verbosity : keeps (W:=W) I P get_verbosity.
Proof.
  intros s s' r evs HI H. injection H as _ <- <-.
  split; [assumption|constructor].
Qed.

Lemma keeps_halt {A} (h : halt) (st : stop) :
  P (Halt h) -> keeps (W:=W) (A:=A) I P (halt_with h st).
Proof.
  intros HP s s' r evs HI H. injection H as _ <- <-.
  split; [assumption|]. constructor; [assumption|constructor].
Qed.

Lemma keeps_undefined {A} : keeps (W:=W) (A:=A) I P undefined.
Proof.
  intros s s' r evs HI H. injection H as _ <- <-.
  split; [assumption|constructor].
Qed.

Lemma keeps_log_fn (lvl : Z) (fmt : string) :
  may_log I P lvl -> keeps (W:=W) I P (log_fn lvl fmt).
Proof.
  intros Hlog s s' r evs HI H. unfold log_fn in H.
  rewrite (bind_run get_verbosity _ s s (verbosity s) []) in H by reflexivity.
  destruct (verbosity s >=? lvl) eqn:Hv.
  - assert (Hle : lvl <= verbosity s) by lia.
    rewrite (bind_run _ _ _ _ _ _ (sys_run _ _)) in H.
    rewrite (bind_run _ _ _ _ _ _ (sys_run _ _)) in H.
    cbn in H. injection H as _ <- <-. cbn [verbosity child].
    split; [assumption|].
    constructor; [apply (Hlog _ _ HI Hle)|].
    constructor; [apply (Hlog _ _ HI Hle fmt)|constructor].
  - cbn in H. injection H as _ <- <-. split; [assumption|constructor].
Qed.

End KeepingRules.

(** One rule of [keeps], chosen by the shape of the computation. *)
Ltac keeps_step :=
  lazymatch goal with
  | |- keeps _ _ (ret _) => apply keeps_ret
  | |- keeps _ _ (bind _ _) => apply keeps_bind; [|intros ?]
  | |- keeps _ _ (sys _) => apply keeps_sys
  | |- keeps _ _ (waitpid _ _) => apply keeps_waitpid
  | |- keeps _ _ get_errno => apply keeps_get_errno
  | |- keeps _ _ (set_errno _) => apply keeps_set_errno
  | |- keeps _ _ get_child => apply keeps_get_child
  | |- keeps _ _ get_verbosity => apply keeps_get_verbosity
  | |- keeps _ _ (log_fn _ _) => apply keeps_log_fn
  | |- keeps _ _ (halt_with _ _) => apply keeps_halt
  | |- keeps _ _ undefined => apply keeps_undefined
  | |- keeps _ _ (if ?b then _ else _) => destruct b
  | |- keeps _ _ (match ?x with _ => _ end) => destruct x
  end.

Ltac keeps_auto :=
  unfold debug, error, verbose, exit, _exit, abort;
  repeat (cbv zeta; keeps_step); auto.

Section KeepingProbes.

Context {W : Type} {os : OS W}.
Variable I : Z -> Z -> Prop.
Variable P : event -> Prop.
Hypothesis stat_calls : forall e, is_stat_call e = true -> P e.
Hypothesis readdir_calls : forall e, is_readdir_call e = true -> P e.
Hypothesis debug_output : may_log I P 3.

Lemma keeps_check_mountpoint_stat (path : string) :
  keeps (W:=W) I P (check_mountpoint_stat path).
Proof.
  unfold check_mountpoint_stat. keeps_auto;
    intros; apply stat_calls; reflexivity.
Qed.

Lemma keeps_check_mountpoint_readdir (path : string) :
  keeps (W:=W) I P (check_mountpoint_readdir path).
Proof.
  unfold check_mountpoint_readdir. keeps_auto;
    intros; apply readdir_calls; reflexivity.
Qed.

Lemma keeps_check_mountpoint (path : string) (check_method : Z) :
  keeps (W:=W) I P (check_mountpoint path check_method).
Proof.
  unfold check_mountpoint.
  destruct (truthy (Z.land check_method CHECK_METHOD_STAT));
    destruct (truthy (Z.land check_method CHECK_METHOD_READDIR));
    unfold debug; repeat (cbv zeta; keeps_step); auto;
    first [apply keeps_check_mountpoint_stat
          |apply keeps_check_mountpoint_readdir].
Qed.

End KeepingProbes.

Section KeepingSupervisor.

Context {W : Type} {os : OS W}.
Variable I : Z -> Z -> Prop.
Variable P : event -> Prop.
Hypothesis alarm_calls : forall n r, P (Call (c_alarm n) r).
Hypothesis waitpid_calls : forall pid options r, P (Call (c_waitpid pid options) r).
Hypothesis exit_calls : forall code, P (Halt (h_exit code)).
Hypothesis debug_output : may_log I P 3.

Lemma keeps_wait_loop (fuel : nat) : keeps (W:=W) I P (wait_loop fuel).
Proof.
  induction fuel as [|fuel IH].
  - intros s s' r evs HI H. injection H as _ <- <-.
    split; [assumption|constructor].
  - cbn [wait_loop]. keeps_auto.
Qed.

Lemma keeps_wait_for_child (fuel : nat) (tmo : Z) :
  keeps (W:=W) I P (wait_for_child fuel tmo).
Proof.
  unfold wait_for_child. unfold debug.
  repeat (cbv zeta; keeps_step); auto. apply keeps_wait_loop.
Qed.

Lemma keeps_array_read (a : list Z) (i : Z) : keeps (W:=W) I P (array_read a i).
Proof. unfold array_read. keeps_auto. Qed.

Lemma keeps_parent (fuel : nat) (tmo : Z) (m : list Z) :
  may_log I P 2 -> keeps (W:=W) I P (parent fuel tmo m).
Proof.
  intros Hverbose. unfold parent. unfold debug, verbose, exit.
  repeat (cbv zeta; keeps_step); auto.
  - apply keeps_wait_for_child.
  - apply keeps_array_read.
Qed.

End KeepingSupervisor.

Section Isolation.

Context {W : Type} {os : OS W}.

Lemma supervisor_call_not_filesystem (e : event) :
  supervisor_call e = true -> is_filesystem_call e = false.
Proof. destruct e as [[] r|[]]; cbn; congruence. Qed.

Lemma filesystem_call_not_output (e : event) :
  is_filesystem_call e = true -> is_output e = false.
Proof. destruct e as [[] r|[]]; cbn; congruence. Qed.

(** X1.  The child branch of [main] never returns: it ends with [exit] of
    the value of [check_mountpoint], whatever that value is.  On the way
    it calls nothing but the file system calls of the probes and output
    functions, and leaves [verbosity] and [child] as they were. *)
Theorem worker_only_probes_then_exits (path : string) (check_method : Z)
    (s : @pstate W) :
  match worker path check_method s with
  | (r, s', evs) =>
      (exists v s0 evs0,
         check_mountpoint path check_method s = (Ret v, s0, evs0) /\
         r = Stop (Exited v) /\ evs = evs0 ++ [Halt (h_exit v)]) /\
      verbosity s' = verbosity s /\ child s' = child s /\
      Forall (fun e => is_filesystem_call e || is_output e || is_exit e = true) evs
  end.
Proof.
  destruct (worker path check_method s) as [[r s'] evs] eqn:Hrun.
  split.
  - destruct (check_mountpoint_value path check_method s)
      as (v & s0 & evs0 & Hcm & _).
    exists v, s0, evs0. split; [exact Hcm|].
    unfold worker in Hrun. rewrite (bind_run _ _ _ _ _ _ Hcm) in Hrun.
    unfold exit, halt_with in Hrun. injection Hrun as <- _ <-.
    split; reflexivity.
  - assert (Hk : keeps (fun v c => v = verbosity s /\ c = child s)
                   (fun e => is_filesystem_call e || is_output e || is_exit e = true)
                   (worker path check_method)).
    { unfold worker, exit. apply keeps_bind.
      - apply keeps_check_mountpoint.
        + intros e He. unfold is_filesystem_call. rewrite He. reflexivity.
        + intros e He. unfold is_filesystem_call. rewrite He.
          rewrite orb_true_r. reflexivity.
        + intros v c _ _ fmt r0. split; reflexivity.
      - intros v. apply keeps_halt. reflexivity. }
    destruct (Hk s s' r evs (conj eq_refl eq_refl) Hrun) as [[Hv Hc] Hev].
    auto.
Qed.

(** X2.  The parent branch of [main] calls nothing but [alarm],
    [waitpid], output functions and [exit]: it makes no call on the file
    system, so it cannot block on the mount that is checked.  It leaves
    [verbosity] and [child] as they were. *)
Theorem parent_never_touches_filesystem (fuel : nat) (tmo : Z)
    (exitcode_map : list Z) (s : @pstate W) :
  match parent fuel tmo exitcode_map s with
  | (r, s', evs) =>
      verbosity s' = verbosity s /\ child s' = child s /\
      Forall (fun e => supervisor_call e = true) evs /\
      Forall (fun e => is_filesystem_call e = false) evs
  end.
Proof.
  destruct (parent fuel tmo exitcode_map s) as [[r s'] evs] eqn:Hrun.
  assert (Hk : keeps (fun v c => v = verbosity s /\ c = child s)
                 (fun e => supervisor_call e = true)
                 (parent fuel tmo exitcode_map)).
  { apply keeps_parent; try reflexivity;
      intros v c _ _ fmt r0; split; reflexivity. }
  destruct (Hk s s' r evs (conj eq_refl eq_refl) Hrun) as [[Hv Hc] Hev].
  split; [assumption|]. split; [assumption|]. split; [assumption|].
  eapply List.Forall_impl; [|exact Hev].
  apply supervisor_call_not_filesystem.
Qed.

(** X3.  Below verbosity 3 neither [check_mountpoint] nor
    [wait_for_child] writes anything: every event of theirs is a call
    other than output.  Below verbosity 2 the same holds of the whole
    parent branch. *)
Theorem tracing_needs_verbosity (path : string) (check_method : Z)
    (fuel : nat) (tmo : Z) (exitcode_map : list Z) (s : @pstate W) :
  verbosity s < 3 ->
  Forall (fun e => is_output e = false)
    (snd (check_mountpoint path check_method s)) /\
  Forall (fun e => is_output e = false)
    (snd (wait_for_child fuel tmo s)) /\
  (verbosity s < 2 ->
   Forall (fun e => is_output e = false)
     (snd (parent fuel tmo exitcode_map s))).
Proof.
  intros Hv.
  assert (Hlog : forall lvl lim, lim <= lvl ->
            may_log (fun v (_ : Z) => v < lim)
              (fun e => is_output e = false) lvl).
  { intros lvl lim Hle v c Hlt Hge. lia. }
  split; [|split].
  - destruct (check_mountpoint path check_method s) as [[r s'] evs] eqn:Hrun.
    refine (proj2 (keeps_check_mountpoint (fun v _ => v < 3)
             (fun e => is_output e = false) _ _ (Hlog 3 3 ltac:(lia))
             path check_method s s' r evs Hv Hrun));
      intros e He; apply filesystem_call_not_output;
      unfold is_filesystem_call; rewrite He, ?orb_true_r; reflexivity.
  - destruct (wait_for_child fuel tmo s) as [[r s'] evs] eqn:Hrun.
    refine (proj2 (keeps_wait_for_child (fun v _ => v < 3)
             (fun e => is_output e = false) _ _ _ (Hlog 3 3 ltac:(lia))
             fuel tmo s s' r evs Hv Hrun)); reflexivity.
  - intros Hv2.
    destruct (parent fuel tmo exitcode_map s) as [[r s'] evs] eqn:Hrun.
    refine (proj2 (keeps_parent (fun v _ => v < 2)
             (fun e => is_output e = false) _ _ _ (Hlog 3 2 ltac:(lia))
             fuel tmo exitcode_map (Hlog 2 2 ltac:(lia))
             s s' r evs Hv2 Hrun)); reflexivity.
Qed.

End Isolation.

Section Orchestration.

Context {W : Type} {os : OS W}.

(** X4.  The directory-listing probe always returns.  Its calls and its
    value are one of the four runs of [readdir_run]: nothing is called
    after a failed [opendir]; after a NULL from [readdir] the stream is
    still closed and the value is the [errno] that [readdir] left,
    whatever [closedir] returns; the value of the first failing step is
    the one returned.  When each failing call leaves a positive [errno],
    the value is 0 exactly when the three calls were made and none
    failed. *)
Theorem check_mountpoint_readdir_first_failure (path : string) (s : @pstate W) :
  exists v s' evs,
    check_mountpoint_readdir path s = (Ret v, s', evs) /\
    verbosity s' = verbosity s /\ child s' = child s /\
    readdir_run path (quiet evs) v /\
    (Forall readdir_sets_errno evs ->
     (v = 0 <->
      length (quiet evs) = 3%nat /\
      Forall (fun e => readdir_failed e = false) (quiet evs))).
Proof.
  destruct (check_mountpoint_readdir_run path s)
    as (v & s' & evs & Hrun & Hv & Hc & Hrr).
  exists v, s', evs. do 4 (split; [assumption|]).
  intros Hposix.
  assert (Hq : Forall readdir_sets_errno (quiet evs)).
  { unfold quiet. rewrite List.Forall_forall in *.
    intros e He. apply List.filter_In in He. apply Hposix. tauto. }
  unfold readdir_sets_errno in Hq.
  inversion Hrr as [r1 Hr1 Heq|r1 r2 r3 Hr1 Hr2 Heq|r1 r2 r3 Hr1 Hr2 Hr3 Heq
                   |r1 r2 r3 Hr1 Hr2 Hr3 Heq];
    rewrite <- Heq in Hq; subst v.
  - inversion Hq as [|e l He _]; subst. cbn in He.
    split; [lia|]. intros [Hlen _]. discriminate Hlen.
  - inversion Hq as [|e l _ Hq1]; subst.
    inversion Hq1 as [|e l He _]; subst. cbn in He.
    split; [lia|]. intros [_ Hall].
    inversion Hall as [|e l _ Hall1]; subst.
    inversion Hall1 as [|e l Hf _]; subst. cbn in Hf. lia.
  - inversion Hq as [|e l _ Hq1]; subst.
    inversion Hq1 as [|e l _ Hq2]; subst.
    inversion Hq2 as [|e l He _]; subst. cbn in He.
    split; [lia|]. intros [_ Hall].
    inversion Hall as [|e l _ Hall1]; subst.
    inversion Hall1 as [|e l _ Hall2]; subst.
    inversion Hall2 as [|e l Hf _]; subst. cbn in Hf. lia.
  - split; [|reflexivity]. intros _. split; [reflexivity|].
    repeat constructor; cbn; lia.
Qed.

(** The second half of [check_mountpoint], entered with 0. *)
Lemma readdir_part_run (path : string) (check_method : Z) (s : @pstate W) :
  exists v s' evs,
    (if truthy (Z.land check_method CHECK_METHOD_READDIR) then
       bind (debug "before check_mountpoint_readdir") (fun _ =>
         bind (check_mountpoint_readdir path) (fun r =>
           bind (debug "check_mountpoint_readdir: ret=%d") (fun _ =>
             if truthy r then
               bind (debug "check method readdir failed: %d") (fun _ => ret r)
             else ret r)))
     else ret 0) s = (Ret v, s', evs) /\
    readdir_part path check_method (quiet evs) v.
Proof.
  unfold readdir_part.
  destruct (truthy (Z.land check_method CHECK_METHOD_READDIR)).
  - run_log.
    match goal with
    | |- context [bind (check_mountpoint_readdir path) ?k ?s0] =>
        destruct (check_mountpoint_readdir_run path s0)
          as (vr & s3 & er & Hr & _ & _ & Hrr);
        rewrite (bind_run _ k s0 _ _ _ Hr); cbv beta
    end.
    run_log.
    destruct (truthy vr); [run_log|]; unfold ret; cbv beta iota;
      (do 3 eexists; split; [reflexivity|]);
      quiet_simpl; rewrite ?app_nil_r; exact Hrr.
  - unfold ret. do 3 eexists. split; [reflexivity|]. split; reflexivity.
Qed.

(** Every run of [check_mountpoint], without its output calls. *)
Lemma check_mountpoint_parts (path : string) (check_method : Z)
    (s : @pstate W) :
  exists v s' evs,
    check_mountpoint path check_method s = (Ret v, s', evs) /\
    orchestrated path check_method (quiet evs) v.
Proof.
  unfold check_mountpoint, orchestrated.
  destruct (truthy (Z.land check_method CHECK_METHOD_STAT)).
  - run_log.
    match goal with
    | |- context [bind (check_mountpoint_stat path) ?k ?s0] =>
        destruct (check_mountpoint_stat_run path s0)
          as (vs & s1 & es & Hs & _ & _ & Hsr);
        rewrite (bind_run _ k s0 _ _ _ Hs); cbv beta
    end.
    run_log.
    destruct (truthy vs) eqn:Hvs.
    + run_log. unfold ret. cbv beta iota.
      do 3 eexists. split; [reflexivity|].
      exists (quiet es), []. quiet_simpl. rewrite ?app_nil_r.
      split; [reflexivity|]. exists vs. split; [exact Hsr|].
      apply truthy_true in Hvs.
      destruct (Z.eqb_spec vs 0); [contradiction|]. split; reflexivity.
    + apply truthy_false in Hvs. subst vs.
      match goal with
      | |- context [(if truthy _ then _ else ret 0) ?s0] =>
          destruct (readdir_part_run path check_method s0)
            as (v & s' & evs & Hr & Hpart)
      end.
      rewrite Hr. cbv beta iota.
      do 3 eexists. split; [reflexivity|].
      exists (quiet es), (quiet evs). quiet_simpl.
      split; [reflexivity|]. exists 0. split; [exact Hsr|]. exact Hpart.
  - destruct (readdir_part_run path check_method s)
      as (v & s' & evs & Hr & Hpart).
    rewrite Hr. do 3 eexists. split; [reflexivity|].
    exists [], (quiet evs). split; [reflexivity|]. split; [reflexivity|].
    exact Hpart.
Qed.

(** X5.  For every check method, [check_mountpoint] returns, and what it
    calls is settled by the two low bits of the method: the status probe
    runs first if its bit is set, and a failure of it is returned at once;
    the directory-listing probe runs next if its bit is set; a probe whose
    bit is clear is not run.  With neither bit set nothing is called and
    0 is returned. *)
Theorem check_mountpoint_orchestration (path : string) (check_method : Z)
    (s : @pstate W) :
  exists v s' evs,
    check_mountpoint path check_method s = (Ret v, s', evs) /\
    orchestrated path check_method (quiet evs) v /\
    (truthy (Z.land check_method CHECK_METHOD_STAT) = false ->
     Forall (fun e => is_stat_call e = false) evs) /\
    (truthy (Z.land check_method CHECK_METHOD_READDIR) = false ->
     Forall (fun e => is_readdir_call e = false) evs).
Proof.
  assert (Hcalls :
    forall v s' evs,
      check_mountpoint path check_method s = (Ret v, s', evs) ->
      (truthy (Z.land check_method CHECK_METHOD_STAT) = false ->
       Forall (fun e => is_stat_call e = false) evs) /\
      (truthy (Z.land check_method CHECK_METHOD_READDIR) = false ->
       Forall (fun e => is_readdir_call e = false) evs)).
  { intros v s' evs Hrun. unfold check_mountpoint in Hrun. split; intros Hb;
      rewrite Hb in Hrun.
    - destruct (truthy (Z.land check_method CHECK_METHOD_READDIR)).
      + refine (proj2 (keeps_bind (fun _ _ => True)
                  (fun e => is_stat_call e = false) _ _ _ _ s s' _ evs I Hrun)).
        * apply keeps_log_fn. intros ? ? _ _ ? ?. split; reflexivity.
        * intros _. apply keeps_bind.
          -- apply keeps_check_mountpoint_readdir.
             ++ intros [[] r|[]]; cbn; congruence.
             ++ intros ? ? _ _ ? ?. split; reflexivity.
          -- intros r. unfold debug. keeps_auto;
               intros ? ? _ _ ? ?; split; reflexivity.
      + injection Hrun as _ _ <-. constructor.
    - destruct (truthy (Z.land check_method CHECK_METHOD_STAT)).
      + refine (proj2 (keeps_bind (fun _ _ => True)
                  (fun e => is_readdir_call e = false) _ _ _ _ s s' _ evs I Hrun)).
        * apply keeps_log_fn. intros ? ? _ _ ? ?. split; reflexivity.
        * intros _. apply keeps_bind.
          -- apply keeps_check_mountpoint_stat.
             ++ intros [[] r|[]]; cbn; congruence.
             ++ intros ? ? _ _ ? ?. split; reflexivity.
          -- intros r. unfold debug. keeps_auto;
               intros ? ? _ _ ? ?; split; reflexivity.
      + injection Hrun as _ _ <-. constructor.
  }
  destruct (check_mountpoint_parts path check_method s)
    as (v & s' & evs & Hrun & Horch).
  exists v, s', evs. split; [exact Hrun|]. split; [exact Horch|].
  apply (Hcalls v s' evs Hrun).
Qed.

Lemma handles_after_app (a b : list event) (held : list handle) :
  handles_after (a ++ b) held =
  match handles_after a held with
  | Some held' => handles_after b held'
  | None => None
  end.
Proof.
  revert held. induction a as [|e a IH]; intros held; [reflexivity|].
  destruct e as [c r|h]; [|apply IH].
  destruct c; cbn [app handles_after]; try apply IH.
  - destruct (release (Fd fd) held); [apply IH|reflexivity].
  - destruct (release (Dir dirp) held); [apply IH|reflexivity].
Qed.

Lemma handles_after_quiet (evs : list event) (held : list handle) :
  handles_after (quiet evs) held = handles_after evs held.
Proof.
  revert held. induction evs as [|e evs IH]; intros held; [reflexivity|].
  destruct e as [c r|h]; [|apply IH].
  destruct c; cbn [quiet List.filter is_output negb handles_after];
    fold (quiet evs); try apply IH.
  - destruct (release (Fd fd) held); [apply IH|reflexivity].
  - destruct (release (Dir dirp) held); [apply IH|reflexivity].
Qed.

Lemma stat_run_handles (path : string) (es : list event) (v : Z) :
  stat_run path es v -> handles_after es [] = Some [].
Proof.
  intros H. inversion H; subst; cbn [handles_after].
  - replace (rv r1 <? 0) with true by lia. reflexivity.
  - replace (rv r1 <? 0) with false by lia. cbn. rewrite Z.eqb_refl. reflexivity.
  - replace (rv r1 <? 0) with false by lia. cbn. rewrite Z.eqb_refl. reflexivity.
  - replace (rv r1 <? 0) with false by lia. cbn. rewrite Z.eqb_refl. reflexivity.
Qed.

Lemma readdir_run_handles (path : string) (er : list event) (v : Z) :
  readdir_run path er v -> handles_after er [] = Some [].
Proof.
  intros H. inversion H; subst; cbn [handles_after].
  - replace (rv r1 =? 0) with true by lia. reflexivity.
  - replace (rv r1 =? 0) with false by lia. cbn. rewrite Z.eqb_refl. reflexivity.
  - replace (rv r1 =? 0) with false by lia. cbn. rewrite Z.eqb_refl. reflexivity.
  - replace (rv r1 =? 0) with false by lia. cbn. rewrite Z.eqb_refl. reflexivity.
Qed.

(** X6.  Whatever the check method and whatever the calls return,
    [check_mountpoint] ends holding no handle: every descriptor that
    [open] gave was passed to [close] once, every stream that [opendir]
    gave to [closedir] once, and nothing else was closed. *)
Theorem check_mountpoint_releases_handles (path : string) (check_method : Z)
    (s : @pstate W) :
  handles_after (snd (check_mountpoint path check_method s)) [] = Some [].
Proof.
  destruct (check_mountpoint_parts path check_method s)
    as (v & s' & evs & Hrun & es & er & Heq & Hparts).
  rewrite Hrun. cbn [snd]. rewrite <- handles_after_quiet, Heq.
  rewrite handles_after_app.
  assert (Hpart : forall v', readdir_part path check_method er v' ->
            handles_after er [] = Some []).
  { unfold readdir_part. intros v'.
    destruct (truthy (Z.land check_method CHECK_METHOD_READDIR)).
    - apply readdir_run_handles.
    - intros [-> _]. reflexivity. }
  destruct (truthy (Z.land check_method CHECK_METHOD_STAT)).
  - destruct Hparts as (vs & Hsr & Hrest).
    rewrite (stat_run_handles _ _ _ Hsr).
    destruct (vs =? 0); [apply (Hpart v Hrest)|].
    destruct Hrest as [-> _]. reflexivity.
  - destruct Hparts as [-> Hrest]. apply (Hpart v Hrest).
Qed.

End Orchestration.

Section KeepingOptions.

Context {W : Type} {os : OS W}.
Variable I : Z -> Z -> Prop.
Variable P : event -> Prop.
Hypothesis output_calls : forall e, is_output e = true -> P e.
Hypothesis halts : forall h, P (Halt h).

Lemma may_log_output (lvl : Z) : may_log I P lvl.
Proof. intros v c _ _ fmt r. split; apply output_calls; reflexivity. Qed.

Lemma keeps_usage : keeps (W:=W) I P usage.
Proof.
  unfold usage. keeps_auto; intros; apply output_calls; reflexivity.
Qed.

Lemma keeps_safe_atoi (optarg : option string) :
  keeps (W:=W) I P (safe_atoi optarg).
Proof.
  unfold safe_atoi. destruct optarg as [str|]; [|apply keeps_undefined].
  apply keeps_bind; [apply keeps_get_errno|]. intros e.
  destruct (strtol str e) as [[r moved] e'].
  keeps_auto. apply may_log_output.
Qed.

Lemma keeps_parse_tokens (toks : list string) (cm : Z) :
  keeps (W:=W) I P (parse_tokens toks cm).
Proof.
  revert cm. induction toks as [|tok toks IH]; intros cm.
  - apply keeps_ret.
  - cbn [parse_tokens]. keeps_auto; apply may_log_output.
Qed.

Lemma keeps_array_write (a : list Z) (i v : Z) :
  keeps (W:=W) I P (array_write a i v).
Proof. unfold array_write. keeps_auto. Qed.

(** An option other than [-v] and [-q]. *)
Lemma keeps_handle_option (c : ascii) (optarg : option string) (l : locals) :
  c <> "v"%char -> c <> "q"%char ->
  keeps (W:=W) I P (handle_option c optarg l).
Proof.
  intros Hv Hq. unfold handle_option.
  destruct (Ascii.eqb c "h");
    [unfold exit; keeps_auto; apply keeps_usage|].
  destruct (Ascii.eqb c "i");
    [keeps_auto; [apply keeps_safe_atoi | apply keeps_array_write]|].
  destruct (Ascii.eqb c "m").
  { apply keeps_bind; [|intros; apply keeps_ret].
    unfold parse_check_method.
    destruct optarg; [apply keeps_parse_tokens | apply keeps_undefined]. }
  destruct (Ascii.eqb c "t");
    [keeps_auto; apply keeps_safe_atoi|].
  destruct (Ascii.eqb_spec c "v"); [contradiction|].
  destruct (Ascii.eqb_spec c "q"); [contradiction|].
  destruct (Ascii.eqb c "?"); unfold abort; keeps_auto.
Qed.

End KeepingOptions.

Section Options.

Context {W : Type} {os : OS W}.

(** One option: [child] is kept and [verbosity] moves by
    [verbosity_step], however the option ends. *)
Lemma handle_option_globals (c : ascii) (optarg : option string) (l : locals)
    (s s' : @pstate W) (r : result locals) (evs : list event) :
  handle_option c optarg l s = (r, s', evs) ->
  verbosity s' = verbosity_step (verbosity s) c /\ child s' = child s.
Proof.
  intros Hrun. unfold verbosity_step.
  destruct (Ascii.eqb_spec c "v") as [->|Hv].
  { cbv [handle_option Ascii.eqb Bool.eqb bind get_verbosity set_verbosity ret]
      in Hrun.
    destruct (verbosity s <=? 2); injection Hrun as _ <- _; split; reflexivity. }
  destruct (Ascii.eqb_spec c "q") as [->|Hq].
  { cbv [handle_option Ascii.eqb Bool.eqb bind get_verbosity set_verbosity ret]
      in Hrun.
    destruct (verbosity s >=? 1); injection Hrun as _ <- _; split; reflexivity. }
  apply (keeps_handle_option (fun v c' => v = verbosity s /\ c' = child s)
           (fun _ => True) (fun _ _ => Logic.I) (fun _ => Logic.I)
           c optarg l Hv Hq s s' r evs (conj eq_refl eq_refl) Hrun).
Qed.

Lemma verbosity_step_range (v : Z) (c : ascii) :
  0 <= v <= 3 -> 0 <= verbosity_step v c <= 3.
Proof.
  intros Hv. unfold verbosity_step.
  destruct (Ascii.eqb c "v"); [destruct (Z.leb_spec v 2); lia|].
  destruct (Ascii.eqb c "q"); [destruct (Z.geb_spec v 1); lia|lia].
Qed.

(** X7.  Through the option loop, however it ends, [child] is not
    written and [verbosity] stays within 0..3 if it started there.  When
    every option is accepted, [verbosity] is what the [-v] and [-q] among
    them make of it, one step each, stopping at 3 and at 0; the other
    options leave it alone. *)
Theorem verbosity_through_options (opts : list (ascii * option string))
    (l : locals) (s : @pstate W) :
  match parse_options opts l s with
  | (r, s', evs) =>
      child s' = child s /\
      (0 <= verbosity s <= 3 -> 0 <= verbosity s' <= 3) /\
      (forall l', r = Ret l' ->
         verbosity s' = verbosity_after opts (verbosity s))
  end.
Proof.
  revert l s. induction opts as [|[c optarg] opts IH]; intros l s.
  - cbn. auto.
  - cbn [parse_options verbosity_after fold_left fst]. unfold bind.
    destruct (handle_option c optarg l s) as [[[l1|st] s1] e1] eqn:H1;
      destruct (handle_option_globals _ _ _ _ _ _ _ H1) as [Hv Hc].
    + specialize (IH l1 s1).
      destruct (parse_options opts l1 s1) as [[r s2] e2].
      destruct IH as (Hc2 & Hrange & Hexact).
      split; [congruence|]. split.
      * intros H0. apply Hrange. rewrite Hv.
        apply verbosity_step_range. exact H0.
      * intros l' Hl'. rewrite (Hexact l' Hl'), Hv. reflexivity.
    + split; [assumption|]. split; [|discriminate].
      intros H0. rewrite Hv. apply verbosity_step_range. exact H0.
Qed.

(** An option that [getopt_long] does not know (it returns ['?']) is
    passed over: the options around it are handled as if it were not
    there, and the run goes on. *)
Lemma unknown_option_is_passed_over
    (pre post : list (ascii * option string)) (optarg : option string)
    (l : locals) (s : @pstate W) :
  parse_options (pre ++ ("?"%char, optarg) :: post) l s =
  parse_options (pre ++ post) l s.
Proof.
  rewrite !parse_options_app. apply bind_ext. intros l1 s1.
  cbn [parse_options].
  change (handle_option "?" optarg l1) with (ret (W:=W) l1).
  unfold bind, ret.
  destruct (parse_options post l1 s1) as [[r s2] e2]. reflexivity.
Qed.

End Options.

Section AcceptedOptions.

Context {W : Type} {os : OS W}.


(** An accepted [-i]: its argument has a number at its front, which is an
    index of the array, and that entry becomes 0. *)
Lemma handle_option_i_accepts (optarg : option string) (l l1 : locals)
    (s s1 : @pstate W) (e1 : list event) :
  handle_option "i" optarg l s = (Ret l1, s1, e1) ->
  exists str z,
    optarg = Some str /\ front_number str = Some z /\
    0 <= z < Z.of_nat (length (exitcode_map l)) /\
    exitcode_map l1 = <[Z.to_nat z := 0]> (exitcode_map l).
Proof.
  rewrite handle_option_i. intros Hrun.
  destruct optarg as [str|]; [|discriminate Hrun].
  destruct (safe_atoi_run str s) as (v & moved & e & Hs & Hacc & Hrej).
  destruct (accepted (v, moved, e)) eqn:Ha.
  - rewrite (bind_run _ _ _ _ _ _ (Hacc eq_refl)) in Hrun.
    unfold bind at 1 in Hrun. rewrite array_write_run in Hrun.
    destruct ((0 <=? v) && (v <? Z.of_nat (length (exitcode_map l)))) eqn:Hb;
      [|discriminate Hrun].
    unfold ret in Hrun. injection Hrun as <- _ _. cbn [exitcode_map].
    apply (accepted_front_number str (errno s) v moved e Hs) in Ha.
    destruct Ha as (_ & z & Hz & Hr & ->).
    exists str, z. repeat split; try assumption; lia.
  - destruct (Hrej eq_refl) as (s' & logs & Hstop & _).
    rewrite (bind_stop _ _ _ _ _ _ Hstop) in Hrun. discriminate Hrun.
Qed.


(** An option other than [-i] does not touch the array. *)
Lemma handle_option_keeps_map (c : ascii) (optarg : option string)
    (l l' : locals) (s s' : @pstate W) (evs : list event) :
  c <> "i"%char ->
  handle_option c optarg l s = (Ret l', s', evs) ->
  exitcode_map l' = exitcode_map l.
Proof.
  intros Hc. unfold handle_option.
  destruct (Ascii.eqb c "h");
    [unfold bind, exit, halt_with;
     destruct (usage s) as [[[|] ?] ?]; discriminate|].
  destruct (Ascii.eqb_spec c "i") as [->|_]; [contradiction|].
  destruct (Ascii.eqb c "m").
  { unfold bind.
    destruct (parse_check_method optarg s) as [[[cm|] ?] ?]; [|discriminate].
    unfold ret. intros H. injection H as <- _ _. reflexivity. }
  destruct (Ascii.eqb c "t").
  { unfold bind.
    destruct (safe_atoi optarg s) as [[[t|] ?] ?]; [|discriminate].
    unfold ret. intros H. injection H as <- _ _. reflexivity. }
  destruct (Ascii.eqb c "v").
  { unfold bind, get_verbosity, set_verbosity, ret.
    destruct (verbosity s <=? 2); intros H; injection H as <- _ _; reflexivity. }
  destruct (Ascii.eqb c "q").
  { unfold bind, get_verbosity, set_verbosity, ret.
    destruct (verbosity s >=? 1); intros H; injection H as <- _ _; reflexivity. }
  destruct (Ascii.eqb c "?").
  { unfold ret. intros H. injection H as <- _ _. reflexivity. }
  unfold abort, halt_with. discriminate.
Qed.


(** The array after accepted options: the entries of the accepted [-i]
    are 0, the others are as before. *)
Lemma exitcode_map_after_options (opts : list (ascii * option string))
    (l l' : locals) (s s' : @pstate W) (evs : list event) :
  parse_options opts l s = (Ret l', s', evs) ->
  length (exitcode_map l') = length (exitcode_map l) /\
  Forall (fun z => 0 <= z < Z.of_nat (length (exitcode_map l)))
    (ignored_codes opts) /\
  forall i, 0 <= i ->
    exitcode_map l' !! Z.to_nat i =
    if existsb (Z.eqb i) (ignored_codes opts)
    then (if i <? Z.of_nat (length (exitcode_map l)) then Some 0 else None)
    else exitcode_map l !! Z.to_nat i.
Proof.
  revert l s evs. induction opts as [|[c optarg] opts IH]; intros l s evs.
  - cbn. unfold ret. intros H. injection H as <- _ _.
    split; [reflexivity|]. split; [constructor|]. reflexivity.
  - cbn [parse_options ignored_codes]. unfold bind.
    destruct (handle_option c optarg l s) as [[[l1|] s1] e1] eqn:H1;
      [|discriminate].
    destruct (parse_options opts l1 s1) as [[r s2] e2] eqn:H2.
    intros H. injection H as -> -> _.
    destruct (IH _ _ _ H2) as (Hlen & Hall & Hlook).
    destruct (Ascii.eqb_spec c "i") as [->|Hc].
    + destruct (handle_option_i_accepts _ _ _ _ _ _ H1)
        as (str & z & -> & Hf & Hz & Hmap).
      rewrite Hf. rewrite Hmap, length_insert in Hlen, Hall.
      split; [assumption|]. split; [constructor; assumption|].
      intros i Hi. rewrite (Hlook i Hi). cbn [existsb].
      rewrite Hmap, length_insert.
      destruct (existsb (Z.eqb i) (ignored_codes opts)).
      * rewrite orb_true_r. reflexivity.
      * rewrite orb_false_r. destruct (Z.eqb_spec i z) as [->|Hne].
        -- rewrite list_lookup_insert_eq by lia.
           replace (z <? Z.of_nat (length (exitcode_map l))) with true by lia.
           reflexivity.
        -- apply list_lookup_insert_ne. lia.
    + rewrite (handle_option_keeps_map _ _ _ _ _ _ _ Hc H1) in Hlen, Hall, Hlook.
      split; [assumption|]. split; [assumption|]. exact Hlook.
Qed.

End AcceptedOptions.

Section Translation.

Context {W : Type} {os : OS W}.

(** X9.  When every option of [main] is accepted, entry [i] of
    [exitcode_map] is 0 if some [-i] gave [i] and is [i] otherwise,
    whatever the order and the number of the [-i] options.  So a parent
    whose [wait_for_child] returns [ret] exits with 0 if [ret] was
    ignored and with [ret] if not. *)
Theorem exit_status_after_ignores (opts : list (ascii * option string))
    (s s1 : @pstate W) (l : locals) (e1 : list event) :
  parse_options opts (Locals identity_map 0 0 2) s = (Ret l, s1, e1) ->
  (forall i, 0 <= i <= 255 ->
     exitcode_map l !! Z.to_nat i =
     Some (if existsb (Z.eqb i) (ignored_codes opts) then 0 else i)) /\
  (forall fuel s2 ret s3 e3,
     wait_for_child fuel (timeout l) s2 = (Ret ret, s3, e3) ->
     exists s4 logs,
       only_output logs /\
       parent fuel (timeout l) (exitcode_map l) s2 =
         (Stop (Exited (if existsb (Z.eqb ret) (ignored_codes opts)
                        then 0 else ret)), s4,
          e3 ++ logs ++
          [Halt (h_exit (if existsb (Z.eqb ret) (ignored_codes opts)
                         then 0 else ret))])).
Proof.
  intros Hopts.
  destruct (exitcode_map_after_options _ _ _ _ _ _ Hopts) as (Hlen & _ & Hlook).
  cbn [exitcode_map] in Hlen, Hlook.
  assert (Hentry : forall i, 0 <= i <= 255 ->
            exitcode_map l !! Z.to_nat i =
            Some (if existsb (Z.eqb i) (ignored_codes opts) then 0 else i)).
  { intros i Hi. rewrite Hlook by lia. rewrite length_identity_map.
    destruct (existsb (Z.eqb i) (ignored_codes opts)).
    - replace (i <? Z.of_nat 256) with true; [reflexivity|].
      symmetry. apply Z.ltb_lt. change (Z.of_nat 256) with 256. lia.
    - apply identity_map_lookup. lia. }
  split; [exact Hentry|].
  intros fuel s2 ret s3 e3 Hwait.
  destruct (parent_run fuel (timeout l) s2 s3 ret e3 Hwait)
    as (Hret & s4 & logs & Ho & Hp).
  exists s4, logs. split; [exact Ho|].
  apply Hp; [rewrite Hlen; apply length_identity_map | apply Hentry; exact Hret].
Qed.

Lemma methods_of_tokens_lor (toks : list string) (acc : Z) :
  methods_of_tokens toks acc = Z.lor acc (methods_of_tokens toks 0).
Proof.
  revert acc. induction toks as [|tok toks IH]; intros acc.
  - cbn. rewrite Z.lor_0_r. reflexivity.
  - cbn [methods_of_tokens]. destruct (method_of_token tok) as [m|]; [|apply IH].
    rewrite (IH (Z.lor acc m)), (IH (Z.lor 0 m)).
    rewrite Z.lor_0_l, Z.lor_assoc. reflexivity.
Qed.

Lemma methods_of_tokens_perm (toks toks' : list string) :
  Permutation toks toks' ->
  methods_of_tokens toks 0 = methods_of_tokens toks' 0.
Proof.
  induction 1 as [|tok a b _ IH|x y a|a b c _ IH1 _ IH2].
  - reflexivity.
  - cbn [methods_of_tokens]. destruct (method_of_token tok) as [m|]; [|exact IH].
    rewrite (methods_of_tokens_lor a), (methods_of_tokens_lor b), IH.
    reflexivity.
  - cbn [methods_of_tokens].
    destruct (method_of_token x) as [mx|], (method_of_token y) as [my|];
      try reflexivity.
    rewrite !Z.lor_0_l.
    rewrite (methods_of_tokens_lor a (Z.lor my mx)),
            (methods_of_tokens_lor a (Z.lor mx my)), (Z.lor_comm my mx).
    reflexivity.
  - congruence.
Qed.

(** X10.  [parse_check_method] accepts its argument exactly when each
    of its tokens is [stat] or [readdir], in any letter case, and then
    returns the set of the methods named; with any other token the
    process exits with [EINVAL].  So the result does not depend on the
    order of the tokens, on repeated tokens or commas, nor on the state
    it is run in. *)
Theorem parse_check_method_result (str : string) (s : @pstate W) :
  fst (fst (parse_check_method (Some str) s)) =
    (if forallb known_method (strtok_all str ",")
     then Ret (methods_of_tokens (strtok_all str ",") 0)
     else Stop (Exited EINVAL)) /\
  forall str' (s0 : @pstate W),
    Permutation (strtok_all str ",") (strtok_all str' ",") ->
    fst (fst (parse_check_method (Some str') s0)) =
    fst (fst (parse_check_method (Some str) s)).
Proof.
  assert (Hres : forall str0 (s0 : @pstate W),
            fst (fst (parse_check_method (Some str0) s0)) =
            (if forallb known_method (strtok_all str0 ",")
             then Ret (methods_of_tokens (strtok_all str0 ",") 0)
             else Stop (Exited EINVAL))).
  { intros str0 s0. unfold parse_check_method.
    destruct (parse_tokens_run (strtok_all str0 ",") 0 s0)
      as (res & s' & evs & Hrun & _ & _ & Hres).
    rewrite Hrun. cbn [fst].
    destruct res as [m|[code| | | |]]; try contradiction.
    - destruct Hres as (_ & -> & Hall).
      replace (forallb known_method (strtok_all str0 ",")) with true;
        [reflexivity|].
      symmetry. apply forallb_forall. intros tok Hin.
      rewrite List.Forall_forall in Hall. specialize (Hall tok Hin).
      unfold known_method. destruct (method_of_token tok); congruence.
    - destruct Hres as (-> & _ & Hex).
      replace (forallb known_method (strtok_all str0 ",")) with false;
        [reflexivity|].
      symmetry. apply not_true_is_false. intros Hall.
      rewrite forallb_forall in Hall.
      apply List.Exists_exists in Hex. destruct Hex as (tok & Hin & Hnone).
      specialize (Hall tok Hin). unfold known_method in Hall.
      rewrite Hnone in Hall. discriminate. }
  split; [apply Hres|].
  intros str' s0 Hperm. rewrite !Hres.
  rewrite (methods_of_tokens_perm _ _ Hperm).
  replace (forallb known_method (strtok_all str' ","))
    with (forallb known_method (strtok_all str ","));
    [reflexivity|].
  apply eq_true_iff_eq. rewrite !forallb_forall.
  split; intros H tok Hin; apply H;
    [apply (Permutation_in tok (Permutation_sym Hperm) Hin)
    |apply (Permutation_in tok Hperm Hin)].
Qed.

End Translation.

Section Startup.

Context {W : Type} {os : OS W}.

(** [after_options] is the default check method, the report of the
    arguments and then [dispatch]. *)
Lemma after_options_dispatch (fuel : nat) (l : locals) (paths : list string) :
  after_options (W:=W) fuel l paths =
  bind (default_check_method l) (fun l =>
    bind (debug "Argument check_method = 0x%.8x") (fun _ =>
      bind (debug "Argument timeout = %d") (fun _ =>
        bind (debug "Argument verbosity = %d") (fun _ =>
          bind (dump_ignored (exitcode_map l)) (fun _ =>
            dispatch fuel l paths))))).
Proof. destruct paths as [|p [|q paths]]; reflexivity. Qed.

Lemma default_check_method_run (l : locals) (s : @pstate W) :
  exists e w logs,
    default_check_method l s =
      (Ret (with_default_method l),
       PState (verbosity s) (child s) e w, logs) /\
    only_output logs.
Proof.
  unfold default_check_method, with_default_method.
  destruct (check_method_set l =? 0).
  - run_log. unfold ret. cbv beta iota.
    do 3 eexists. split; [reflexivity|].
    apply only_output_app; [assumption|constructor].
  - destruct s. unfold ret. do 3 eexists. split; [reflexivity|constructor].
Qed.

Lemma length_with_default_method (l : locals) :
  length (exitcode_map (with_default_method l)) = length (exitcode_map l).
Proof. unfold with_default_method. destruct (check_method_set l =? 0); reflexivity. Qed.

(** What comes before [dispatch] is output only and keeps [verbosity]
    and [child]. *)
Lemma after_options_run (l : locals) (s : @pstate W) :
  length (exitcode_map l) = 256%nat ->
  exists s1 logs,
    only_output logs /\
    verbosity s1 = verbosity s /\ child s1 = child s /\
    forall fuel paths,
      after_options fuel l paths s =
      (let '(r, s2, e2) := dispatch fuel (with_default_method l) paths s1 in
       (r, s2, logs ++ e2)).
Proof.
  intros Hlen.
  destruct (default_check_method_run l s) as (e0 & w0 & l0 & H0 & Ho0).
  destruct (log_fn_run 3 "Argument check_method = 0x%.8x"
              (PState (verbosity s) (child s) e0 w0))
    as (v1 & e1 & w1 & l1 & H1 & _ & Ho1 & _).
  cbn [verbosity child] in H1.
  destruct (log_fn_run 3 "Argument timeout = %d"
              (PState (verbosity s) (child s) e1 w1))
    as (v2 & e2 & w2 & l2 & H2 & _ & Ho2 & _).
  cbn [verbosity child] in H2.
  destruct (log_fn_run 3 "Argument verbosity = %d"
              (PState (verbosity s) (child s) e2 w2))
    as (v3 & e3 & w3 & l3 & H3 & _ & Ho3 & _).
  cbn [verbosity child] in H3.
  destruct (dump_ignored_run (exitcode_map (with_default_method l))
              (PState (verbosity s) (child s) e3 w3))
    as (s4 & l4 & H4 & Ho4 & Hv4 & Hc4);
    [rewrite length_with_default_method; exact Hlen|].
  cbn [verbosity child] in Hv4, Hc4.
  exists s4, (l0 ++ l1 ++ l2 ++ l3 ++ l4).
  split; [repeat apply only_output_app; assumption|].
  split; [assumption|]. split; [assumption|].
  intros fuel paths. rewrite after_options_dispatch.
  rewrite (bind_run _ _ _ _ _ _ H0). cbv beta.
  rewrite (bind_run (debug _) _ _ _ _ _ H1). cbv beta.
  rewrite (bind_run (debug _) _ _ _ _ _ H2). cbv beta.
  rewrite (bind_run (debug _) _ _ _ _ _ H3). cbv beta.
  rewrite (bind_run _ _ _ _ _ _ H4). cbv beta.
  destruct (dispatch fuel (with_default_method l) paths s4) as [[r s5] e5].
  rewrite <- !app_assoc. reflexivity.
Qed.

(** [main], once its options are accepted. *)
Lemma main_run (opts : list (ascii * option string)) (s s1 : @pstate W)
    (l : locals) (e1 : list event) :
  parse_options opts (Locals identity_map 0 0 2) s = (Ret l, s1, e1) ->
  exists s2 logs,
    only_output logs /\
    verbosity s2 = verbosity s1 /\ child s2 = child s /\
    forall fuel paths,
      main fuel opts paths s =
      (let '(r, s3, e3) := dispatch fuel (with_default_method l) paths s2 in
       (r, s3, logs ++ e3)).
Proof.
  intros Hopts.
  destruct (parse_options_run opts (Locals identity_map 0 0 2) s)
    as (res & s1' & e1' & Hrun & Hc & _ & Hret).
  rewrite Hopts in Hrun. injection Hrun as <- <- <-.
  destruct (Hret l eq_refl) as [Ho1 Hlen]. cbn [exitcode_map] in Hlen.
  destruct (after_options_run l s1) as (s2 & logs & Ho & Hv2 & Hc2 & Hafter);
    [rewrite Hlen; apply length_identity_map|].
  exists s2, (e1 ++ logs).
  split; [apply only_output_app; assumption|].
  split; [assumption|]. split; [congruence|].
  intros fuel paths. rewrite main_unfold.
  rewrite (bind_run _ _ _ _ _ _ Hopts). cbv beta. rewrite Hafter.
  destruct (dispatch fuel (with_default_method l) paths s2) as [[r s3] e3].
  rewrite <- app_assoc. reflexivity.
Qed.

(** Every run of [supervise], without its output calls. *)
Lemma log_fn_loud (lvl : Z) (fmt : string) (s : @pstate W)
    (v e : Z) (w : W) (evs : list event) :
  log_fn lvl fmt s = (Ret v, PState (verbosity s) (child s) e w, evs) ->
  lvl <= verbosity s ->
  exists r_msg r_flush,
    evs = [Call (c_vfprintf fmt) r_msg; Call c_fflush r_flush] /\
    e = err r_flush.
Proof.
  unfold log_fn.
  rewrite (bind_run get_verbosity _ s s (verbosity s) []) by reflexivity.
  destruct (verbosity s >=? lvl) eqn:Hv; [|lia].
  rewrite (bind_run _ _ _ _ _ _ (sys_run _ _)).
  rewrite (bind_run _ _ _ _ _ _ (sys_run _ _)).
  cbn. intros H _. injection H as _ <- _ <-. eauto.
Qed.

Lemma supervise_run (fuel : nat) (l : locals) (path : string) (s : @pstate W) :
  exists res s' evs r_uid,
    supervise fuel l path s = (res, s', evs) /\
    if rv r_uid >? 0 then
      res = Stop (Exited EINVAL) /\
      quiet evs = [Call c_geteuid r_uid; Halt (h_exit EINVAL)]
    else
      exists r_sig,
        if rv r_sig <? 0 then
          exists e,
            res = Stop (Exited e) /\
            quiet evs =
              [Call c_geteuid r_uid;
               Call (c_sigaction SIGALRM SA_RESTART) r_sig; Halt (h_exit e)] /\
            (verbosity s < 1 -> e = err r_sig) /\
            (1 <= verbosity s ->
             exists r_msg r_flush,
               evs =
                 [Call c_geteuid r_uid;
                  Call (c_sigaction SIGALRM SA_RESTART) r_sig;
                  Call (c_vfprintf "Unable to install SIGALRM handler: %s")
                    r_msg;
                  Call c_fflush r_flush; Halt (h_exit e)] /\
               e = err r_flush)
        else
          exists r_fork,
            if rv r_fork <? 0 then
              res = Stop (Exited (err r_fork)) /\
              quiet evs =
                [Call c_geteuid r_uid;
                 Call (c_sigaction SIGALRM SA_RESTART) r_sig;
                 Call c_fork r_fork; Halt (h_exit (err r_fork))]
            else
              exists s2 ep,
                verbosity s2 = verbosity s /\ child s2 = rv r_fork /\
                (if rv r_fork =? 0 then worker path (check_method l) s2
                 else parent fuel (timeout l) (exitcode_map l) s2) =
                  (res, s', ep) /\
                quiet evs =
                  [Call c_geteuid r_uid;
                   Call (c_sigaction SIGALRM SA_RESTART) r_sig;
                   Call c_fork r_fork] ++ quiet ep.
Proof.
  unfold supervise. run_sys.
  destruct (os_sys c_geteuid (errno s) (world s)) as [r_uid w1]; cbn [fst snd].
  destruct (rv r_uid >? 0) eqn:Huid.
  { run_log. unfold exit, halt_with. cbv beta iota.
    exists (Stop (Exited EINVAL)). do 2 eexists. exists r_uid.
    split; [reflexivity|]. rewrite Huid. split; [reflexivity|].
    quiet_simpl. reflexivity. }
  run_sys.
  destruct (os_sys (c_sigaction _ _) _ _) as [r_sig w2]; cbn [fst snd].
  destruct (rv r_sig <? 0) eqn:Hsig.
  { run_log. run_errno. unfold exit, halt_with. cbv beta iota.
    do 3 eexists. exists r_uid. split; [reflexivity|]. rewrite Huid.
    exists r_sig. rewrite Hsig. eexists. split; [reflexivity|].
    split; [quiet_simpl; reflexivity|].
    split; [intros Hv; apply Hsilent in Hv; tauto|].
    intros Hv.
    destruct (log_fn_loud _ _ _ _ _ _ _ Hlog Hv) as (r_msg & r_flush & -> & ->).
    exists r_msg, r_flush. split; reflexivity. }
  run_log. run_sys.
  destruct (os_sys c_fflush _ _) as [r_fl w3]; cbn [fst snd].
  run_sys.
  destruct (os_sys c_fork _ _) as [r_fork w4]; cbn [fst snd].
  match goal with
  | |- context [bind (set_child ?pid) ?k ?s0] =>
      rewrite (bind_run (set_child pid) k s0
                 (PState (verbosity s0) pid (errno s0) (world s0)) tt []
                 eq_refl);
      cbv beta; cbn [errno verbosity child world]
  end.
  destruct (rv r_fork <? 0) eqn:Hfork.
  { run_errno. run_log. unfold exit, halt_with. cbv beta iota.
    do 3 eexists. exists r_uid. split; [reflexivity|]. rewrite Huid.
    exists r_sig. rewrite Hsig. exists r_fork. rewrite Hfork.
    split; [reflexivity|]. quiet_simpl. reflexivity. }
  match goal with
  | |- context [(if rv r_fork =? 0 then _ else _) ?s2] =>
      destruct ((if rv r_fork =? 0 then worker path (check_method l)
                 else parent fuel (timeout l) (exitcode_map l)) s2)
        as [[res s'] ep] eqn:Hrest;
      exists res, s'; eexists; exists r_uid; (split; [reflexivity|]);
      rewrite Huid; exists r_sig; rewrite Hsig; exists r_fork; rewrite Hfork;
      exists s2, ep
  end.
  cbn [verbosity child].
  split; [reflexivity|]. split; [reflexivity|].
  split; [destruct (rv r_fork =? 0); exact Hrest|].
  quiet_simpl. reflexivity.
Qed.

End Startup.

Section MainRuns.

Context {W : Type} {os : OS W}.

(** X11.  With its options accepted, [main] given no path, or more than
    one, reports it and exits with [EINVAL]; it has then called nothing
    but output functions: not [geteuid], not [fork], no probe. *)
Theorem main_requires_one_path (fuel : nat)
    (opts : list (ascii * option string)) (paths : list string)
    (s s1 : @pstate W) (l : locals) (e1 : list event) :
  parse_options opts (Locals identity_map 0 0 2) s = (Ret l, s1, e1) ->
  length paths <> 1%nat ->
  exists s' logs,
    main fuel opts paths s =
      (Stop (Exited EINVAL), s', logs ++ [Halt (h_exit EINVAL)]) /\
    only_output logs.
Proof.
  intros Hopts Hlen.
  destruct (main_run opts s s1 l e1 Hopts) as (s2 & logs & Ho & _ & _ & Hmain).
  rewrite Hmain.
  destruct paths as [|p [|q paths]]; [|contradiction Hlen; reflexivity|];
    cbn [dispatch]; run_log; unfold exit, halt_with; cbv beta iota;
    do 2 eexists; rewrite app_assoc;
    (split; [reflexivity|]); apply only_output_app; assumption.
Qed.

(** X12.  With its options accepted and one path, the first call of
    [main] other than output is [geteuid], and when the effective user is
    not root the run ends there with [exit(EINVAL)]: no handler is
    installed, nothing is forked, no probe runs.  Otherwise the next such
    call installs the [SIGALRM] handler with [SA_RESTART]. *)
Theorem main_checks_privilege_first (fuel : nat)
    (opts : list (ascii * option string)) (path : string)
    (s s1 : @pstate W) (l : locals) (e1 : list event) :
  parse_options opts (Locals identity_map 0 0 2) s = (Ret l, s1, e1) ->
  exists res s' evs r_uid rest,
    main fuel opts [path] s = (res, s', evs) /\
    quiet evs = Call c_geteuid r_uid :: rest /\
    (0 < rv r_uid ->
     res = Stop (Exited EINVAL) /\ rest = [Halt (h_exit EINVAL)]) /\
    (rv r_uid <= 0 ->
     exists r_sig rest',
       rest = Call (c_sigaction SIGALRM SA_RESTART) r_sig :: rest').
Proof.
  intros Hopts.
  destruct (main_run opts s s1 l e1 Hopts) as (s2 & logs & Ho & _ & _ & Hmain).
  rewrite Hmain. cbn [dispatch].
  destruct (supervise_run fuel (with_default_method l) path s2)
    as (res & s' & evs & r_uid & Hrun & Hcases).
  rewrite Hrun. exists res, s', (logs ++ evs), r_uid.
  rewrite quiet_app, (only_output_quiet _ Ho). cbn [app].
  destruct (Z.gtb_spec (rv r_uid) 0) as [Hpos|Hneg].
  - destruct Hcases as [-> Hq]. rewrite Hq.
    eexists. split; [reflexivity|]. split; [reflexivity|].
    split; [auto | intros; lia].
  - destruct Hcases as (r_sig & Hcases).
    destruct (rv r_sig <? 0).
    + destruct Hcases as (e & _ & Hq & _). rewrite Hq.
      eexists. split; [reflexivity|]. split; [reflexivity|].
      split; [intros; lia | intros _; eauto].
    + destruct Hcases as (r_fork & Hcases).
      destruct (rv r_fork <? 0).
      * destruct Hcases as [_ Hq]. rewrite Hq.
        eexists. split; [reflexivity|]. split; [reflexivity|].
        split; [intros; lia | intros _; eauto].
      * destruct Hcases as (s3 & ep & _ & _ & _ & Hq). rewrite Hq.
        eexists. split; [reflexivity|]. split; [reflexivity|].
        split; [intros; lia | intros _; eauto].
Qed.

(** X13.  The two failures of the start-up.  When [sigaction] fails,
    [main] exits with the value [errno] has after the error message was
    written, the saved copy being used for the message only: when the
    message is written (verbosity 1 or more) the run ends with the
    [vfprintf] and the [fflush] of the message and [exit] of what that
    [fflush] left in [errno], whatever [sigaction] had left; when nothing
    is written (verbosity 0) it is the error of [sigaction].  When [fork]
    fails, [main] exits with the error of [fork], saved before the
    message.  In both cases nothing else is called. *)
Theorem main_startup_failures (fuel : nat)
    (opts : list (ascii * option string)) (path : string)
    (s s1 : @pstate W) (l : locals) (e1 : list event) :
  parse_options opts (Locals identity_map 0 0 2) s = (Ret l, s1, e1) ->
  exists res s' evs,
    main fuel opts [path] s = (res, s', evs) /\
    forall r_uid r_sig rest,
      quiet evs =
        Call c_geteuid r_uid ::
        Call (c_sigaction SIGALRM SA_RESTART) r_sig :: rest ->
      (rv r_sig < 0 ->
       exists e,
         res = Stop (Exited e) /\ rest = [Halt (h_exit e)] /\
         (verbosity s1 < 1 -> e = err r_sig) /\
         (1 <= verbosity s1 ->
          exists pre r_msg r_flush,
            evs =
              pre ++
              [Call (c_vfprintf "Unable to install SIGALRM handler: %s") r_msg;
               Call c_fflush r_flush; Halt (h_exit e)] /\
            e = err r_flush)) /\
      (0 <= rv r_sig ->
       exists r_fork rest',
         rest = Call c_fork r_fork :: rest' /\
         (rv r_fork < 0 ->
          res = Stop (Exited (err r_fork)) /\
          rest' = [Halt (h_exit (err r_fork))])).
Proof.
  intros Hopts.
  destruct (main_run opts s s1 l e1 Hopts) as (s2 & logs & Ho & Hv & _ & Hmain).
  rewrite Hmain. cbn [dispatch].
  destruct (supervise_run fuel (with_default_method l) path s2)
    as (res & s' & evs & r_uid & Hrun & Hcases).
  rewrite Hrun. exists res, s', (logs ++ evs). split; [reflexivity|].
  intros r_uid' r_sig' rest.
  rewrite quiet_app, (only_output_quiet _ Ho). cbn [app].
  destruct (rv r_uid >? 0).
  { destruct Hcases as [_ Hq]. rewrite Hq. discriminate. }
  destruct Hcases as (r_sig & Hcases).
  destruct (Z.ltb_spec (rv r_sig) 0) as [Hs|Hs].
  - destruct Hcases as (e & -> & Hq & He & Hloud). rewrite Hq.
    intros H. injection H as _ <- <-.
    split; [|intros; lia].
    intros _. exists e. split; [reflexivity|]. split; [reflexivity|].
    rewrite <- Hv. split; [exact He|].
    intros Hv1. destruct (Hloud Hv1) as (r_msg & r_flush & -> & ->).
    exists (logs ++ [Call c_geteuid r_uid;
                     Call (c_sigaction SIGALRM SA_RESTART) r_sig]),
      r_msg, r_flush.
    split; [rewrite <- app_assoc; reflexivity|reflexivity].
  - destruct Hcases as (r_fork & Hcases).
    destruct (Z.ltb_spec (rv r_fork) 0) as [Hf|Hf].
    + destruct Hcases as [-> Hq]. rewrite Hq.
      intros H. injection H as _ <- <-.
      split; [intros; lia|].
      intros _. exists r_fork. eexists. split; [reflexivity|]. auto.
    + destruct Hcases as (s3 & ep & _ & _ & _ & Hq). rewrite Hq.
      intros H. injection H as _ <- <-.
      split; [intros; lia|].
      intros _. exists r_fork. eexists. split; [reflexivity|].
      intros; lia.
Qed.

Lemma quiet_Forall (Q : event -> Prop) (evs : list event) :
  (forall e, is_output e = true -> Q e) ->
  Forall Q (quiet evs) -> Forall Q evs.
Proof.
  intros Hout. induction evs as [|e evs IH]; [constructor|].
  cbn. destruct (is_output e) eqn:He; cbn; intros H.
  - constructor; auto.
  - inversion H; subst. constructor; auto.
Qed.

Lemma run_let {A} (x : result A * @pstate W * list event) (e1 : list event)
    (res : result A) (s' : @pstate W) (ep : list event) :
  (let '(r, s2, e2) := x in (r, s2, e1 ++ e2)) = (res, s', ep) ->
  exists e2, x = (res, s', e2) /\ ep = e1 ++ e2.
Proof.
  destruct x as [[r s2] e2]. intros H. injection H as -> -> <-. eauto.
Qed.

Lemma output_waits_on (pid : Z) (e : event) : is_output e = true -> waits_on pid e.
Proof. destruct e as [[] r|[]]; cbn; congruence || trivial. Qed.

Lemma parent_reports_waits_on (pid : Z) (m : list Z) (r : Z) :
  keeps (W:=W) (fun _ _ => True) (waits_on pid)
    (bind (debug "wait_for_child(%d) = %d") (fun _ =>
     bind (verbose "Check process exited with status code %d") (fun _ =>
     bind (array_read m r) (fun code => exit (A:=Z) code)))).
Proof.
  unfold debug, verbose, exit, array_read.
  repeat (cbv zeta; keeps_step);
    try (intros ? ? _ _ ? ?; split; exact Logic.I);
    try exact Logic.I.
Qed.

(** The parent branch starts with [alarm(timeout)], and each of its
    calls of [waitpid] is on [child]. *)
Lemma parent_waits_on_child (fuel : nat) (tmo : Z) (m : list Z)
    (s s' : @pstate W) (res : result Z) (ep : list event) :
  parent fuel tmo m s = (res, s', ep) ->
  Forall (waits_on (child s)) ep /\
  exists ra tail, ep = Call (c_alarm (to_unsigned tmo)) ra :: tail.
Proof.
  intros Hrun.
  destruct (wait_for_child_run fuel tmo s)
    as (res0 & s0 & ra0 & replies & tail & Hw & _ & Hres).
  assert (Hwaits : Forall (waits_on (child s))
            (Call (c_alarm (to_unsigned tmo)) ra0 ::
             map (Call (c_waitpid (child s) 0)) replies ++ tail)).
  { constructor; [exact Logic.I|]. apply Forall_app. split.
    - apply List.Forall_forall. intros e He.
      apply in_map_iff in He. destruct He as (r & <- & _). reflexivity.
    - destruct res0 as [v|[code| | | |]]; try contradiction.
      + destruct Hres as (r_ok & ra1 & logs & -> & Ho & _).
        constructor; [reflexivity|]. constructor; [exact Logic.I|].
        eapply List.Forall_impl; [|exact Ho]. apply output_waits_on.
      + destruct Hres as (_ & r_bad & logs & -> & _ & _ & Ho).
        constructor; [reflexivity|]. apply Forall_app. split.
        * eapply List.Forall_impl; [|exact Ho]. apply output_waits_on.
        * constructor; [exact Logic.I|constructor].
      + destruct Hres as [-> _]. constructor. }
  unfold parent in Hrun. destruct res0 as [v|st].
  - rewrite (bind_run _ _ _ _ _ _ Hw) in Hrun.
    apply run_let in Hrun. destruct Hrun as (e2 & Hk & ->).
    split; [|cbn [app]; eauto].
    apply Forall_app. split; [exact Hwaits|].
    exact (proj2 (parent_reports_waits_on (child s) m v _ _ _ _ Logic.I Hk)).
  - rewrite (bind_stop _ _ _ _ _ _ Hw) in Hrun.
    injection Hrun as _ _ <-. split; [exact Hwaits|eauto].
Qed.

(** X14.  After a successful start-up, what [fork] returns decides.
    When it returns 0 the rest of the run is the worker, with the check
    method that the options and the default give.  When it returns a
    process id, the rest is the parent branch, run with [child] holding
    that id: [alarm(timeout)] is the next call, so the alarm is armed
    only once [child] is recorded, and every [waitpid] of the run is on
    that process. *)
Theorem main_supervises_forked_child (fuel : nat)
    (opts : list (ascii * option string)) (path : string)
    (s s1 : @pstate W) (l : locals) (e1 : list event) :
  parse_options opts (Locals identity_map 0 0 2) s = (Ret l, s1, e1) ->
  exists res s' evs,
    main fuel opts [path] s = (res, s', evs) /\
    forall r_uid r_sig r_fork rest,
      quiet evs =
        Call c_geteuid r_uid ::
        Call (c_sigaction SIGALRM SA_RESTART) r_sig ::
        Call c_fork r_fork :: rest ->
      (rv r_fork = 0 ->
       exists s2 ep,
         child s2 = 0 /\
         worker path (check_method (with_default_method l)) s2 = (res, s', ep) /\
         rest = quiet ep) /\
      (0 < rv r_fork ->
       exists s2 ep ra rest',
         child s2 = rv r_fork /\
         parent fuel (timeout (with_default_method l))
           (exitcode_map (with_default_method l)) s2 = (res, s', ep) /\
         rest = quiet ep /\
         rest = Call (c_alarm (to_unsigned (timeout (with_default_method l)))) ra
                :: rest' /\
         Forall (waits_on (rv r_fork)) evs).
Proof.
  intros Hopts.
  destruct (main_run opts s s1 l e1 Hopts) as (s2 & logs & Ho & _ & _ & Hmain).
  rewrite Hmain. cbn [dispatch].
  destruct (supervise_run fuel (with_default_method l) path s2)
    as (res & s' & evs & r_uid & Hrun & Hcases).
  rewrite Hrun. exists res, s', (logs ++ evs). split; [reflexivity|].
  intros r_uid' r_sig' r_fork' rest.
  rewrite quiet_app, (only_output_quiet _ Ho). cbn [app].
  destruct (rv r_uid >? 0).
  { destruct Hcases as [_ Hq]. rewrite Hq. discriminate. }
  destruct Hcases as (r_sig & Hcases).
  destruct (rv r_sig <? 0).
  { destruct Hcases as (e & _ & Hq & _). rewrite Hq. discriminate. }
  destruct Hcases as (r_fork & Hcases).
  destruct (Z.ltb_spec (rv r_fork) 0) as [Hf|Hf].
  { destruct Hcases as [_ Hq]. rewrite Hq.
    intros H. injection H as _ _ <- _. split; intros; lia. }
  destruct Hcases as (s3 & ep & _ & Hc & Hrest & Hq). rewrite Hq.
  intros H. injection H as _ _ <- <-.
  split.
  - intros H0. rewrite H0 in Hrest, Hc. cbn [Z.eqb] in Hrest.
    exists s3, ep. auto.
  - intros Hpos.
    destruct (Z.eqb_spec (rv r_fork) 0) as [H0|_]; [lia|].
    destruct (parent_waits_on_child _ _ _ _ _ _ _ Hrest)
      as (Hwaits & ra & tail & Hep).
    rewrite Hc in Hwaits.
    exists s3, ep, ra, (quiet tail).
    split; [assumption|]. split; [assumption|]. split; [reflexivity|].
    split; [rewrite Hep; reflexivity|].
    apply quiet_Forall; [apply output_waits_on|].
    rewrite quiet_app, (only_output_quiet _ Ho), Hq. cbn [app].
    repeat (constructor; [exact Logic.I|]).
    unfold quiet. apply List.Forall_forall. intros e He.
    apply List.filter_In in He. rewrite List.Forall_forall in Hwaits.
    apply Hwaits. tauto.
Qed.

(** X15.  [-h] after accepted options ends the run at once: the twelve
    lines of the usage are written with [printf], whatever the
    verbosity, and [main] exits with 0, whatever options and paths
    follow or are missing. *)
Theorem help_exits_with_zero (fuel : nat)
    (pre post : list (ascii * option string)) (optarg : option string)
    (paths : list string) (s s1 : @pstate W) (l1 : locals)
    (e1 : list event) :
  parse_options pre (Locals identity_map 0 0 2) s = (Ret l1, s1, e1) ->
  exists s' lines,
    main fuel (pre ++ ("h"%char, optarg) :: post) paths s =
      (Stop (Exited 0), s', e1 ++ lines ++ [Halt (h_exit 0)]) /\
    length lines = 12%nat /\ Forall (fun e => is_printf e = true) lines.
Proof.
  intros Hpre.
  destruct (usage_lines s1) as (s' & lines & Hu & Hlen & Hall & _).
  exists s', lines. split; [|split; assumption].
  rewrite main_unfold.
  rewrite (bind_cong_l _ _ _ _ (parse_options_app _ _ _ _)), bind_assoc.
  rewrite (bind_run _ _ _ _ _ _ Hpre). cbv beta.
  cbn [parse_options]. rewrite !bind_assoc.
  change (handle_option "h" optarg l1)
    with (bind (W:=W) usage (fun _ => exit (A:=locals) 0)).
  rewrite bind_assoc. rewrite (bind_run _ _ _ _ _ _ Hu). cbv beta.
  reflexivity.
Qed.

(** X16.  When [wait_for_child] does not return a value, the parent
    branch ends as it did, whatever the array holds: a [waitpid] that
    fails for a reason other than [EINTR] ends the process with exit
    status 1, which no [-i] can turn into 0. *)
Theorem waitpid_failure_is_not_translated (fuel : nat) (tmo : Z)
    (s s1 : @pstate W) (st : stop) (e1 : list event) :
  wait_for_child fuel tmo s = (Stop st, s1, e1) ->
  (st = Exited 1 \/ st = StillWaiting) /\
  forall exitcode_map,
    parent fuel tmo exitcode_map s = (Stop st, s1, e1).
Proof.
  intros Hwait. split.
  - destruct (wait_for_child_run fuel tmo s)
      as (res0 & s0 & ra0 & replies & tail & Hw & _ & Hres).
    rewrite Hwait in Hw. injection Hw as <- _ _.
    destruct st as [code| | | |]; try contradiction; [|auto].
    destruct Hres as [-> _]. auto.
  - intros m. unfold parent. apply (bind_stop _ _ _ _ _ _ Hwait).
Qed.

End MainRuns.
(** ** Further runs on the scripted operating system *)

(** X3, on a run: the default verbosity, both probes, a parent with two
    rounds of fuel. *)
Lemma tracing_needs_verbosity_witness :
  Forall (fun e => is_output e = false)
    (snd (check_mountpoint "/mnt" 3 (initial ([] : list reply)))) /\
  Forall (fun e => is_output e = false)
    (snd (wait_for_child 2 2 (initial ([] : list reply)))).
Proof.
  destruct (tracing_needs_verbosity "/mnt" 3 2 2 identity_map
              (initial ([] : list reply)) ltac:(cbn; lia))
    as (H1 & H2 & _).
  split; [exact H1 | exact H2].
Defined.


(** X9, on a run: [-i 110 -i 2]. *)
Lemma exit_status_after_ignores_witness :
  <[2%nat := 0]> (<[110%nat := 0]> identity_map) !! 110%nat = Some 0 /\
  <[2%nat := 0]> (<[110%nat := 0]> identity_map) !! 13%nat = Some 13.
Proof.
  destruct (exit_status_after_ignores
              [("i"%char, Some "110"); ("i"%char, Some "2")]
              (initial ([] : list reply)) (initial [])
              (Locals (<[2%nat := 0]> (<[110%nat := 0]> identity_map)) 0 0 2)
              [] eq_refl) as [H _].
  split; [exact (H 110 ltac:(lia)) | exact (H 13 ltac:(lia))].
Defined.

(** X11, on a run: no option and no path. *)
Lemma main_requires_one_path_witness :
  exists s' logs,
    main 5 [] [] (initial ([] : list reply)) =
      (Stop (Exited EINVAL), s', logs ++ [Halt (h_exit EINVAL)]) /\
    only_output logs.
Proof.
  apply (main_requires_one_path 5 [] [] (initial ([] : list reply))
           (initial []) (Locals identity_map 0 0 2) [] eq_refl).
  discriminate.
Defined.

(** X12, on a run: the effective user is 1000. *)
Lemma main_checks_privilege_first_witness :
  exists res s' evs r_uid rest,
    main 5 [] ["/mnt"] (initial [Reply 1000 0 0]) = (res, s', evs) /\
    quiet evs = Call c_geteuid r_uid :: rest /\
    (0 < rv r_uid ->
     res = Stop (Exited EINVAL) /\ rest = [Halt (h_exit EINVAL)]) /\
    (rv r_uid <= 0 ->
     exists r_sig rest',
       rest = Call (c_sigaction SIGALRM SA_RESTART) r_sig :: rest').
Proof.
  apply (main_checks_privilege_first 5 [] "/mnt" (initial [Reply 1000 0 0])
           (initial [Reply 1000 0 0]) (Locals identity_map 0 0 2) [] eq_refl).
Defined.

(** X13, on a run at verbosity 1: [sigaction] fails with [EINVAL] and
    the [fflush] of the message fails with [EBADF] (9); [main] exits with
    9, not with [EINVAL]. *)
Lemma main_startup_failures_witness :
  exists s' evs,
    main 5 [] ["/mnt"]
      (initial [Reply 0 0 0; Reply (-1) 0 EINVAL; Reply 40 0 EINVAL;
                Reply (-1) 0 9]) =
      (Stop (Exited 9), s', evs).
Proof.
  destruct (main_startup_failures 5 [] "/mnt"
              (initial [Reply 0 0 0; Reply (-1) 0 EINVAL; Reply 40 0 EINVAL;
                        Reply (-1) 0 9])
              (initial [Reply 0 0 0; Reply (-1) 0 EINVAL; Reply 40 0 EINVAL;
                        Reply (-1) 0 9])
              (Locals identity_map 0 0 2) [] eq_refl)
    as (res & s' & evs & Hrun & Hafter).
  assert (Hevs : evs =
            [Call c_geteuid (Reply 0 0 0);
             Call (c_sigaction SIGALRM SA_RESTART) (Reply (-1) 0 EINVAL)] ++
            [Call (c_vfprintf "Unable to install SIGALRM handler: %s")
               (Reply 40 0 EINVAL);
             Call c_fflush (Reply (-1) 0 9); Halt (h_exit 9)]).
  { vm_compute in Hrun. injection Hrun as _ _ <-. reflexivity. }
  destruct (Hafter (Reply 0 0 0) (Reply (-1) 0 EINVAL) [Halt (h_exit 9)])
    as [Hfail _]; [rewrite Hevs; reflexivity|].
  destruct (Hfail ltac:(cbn; lia)) as (e & Hres & _ & _ & Hloud).
  destruct (Hloud ltac:(cbn; lia)) as (pre & r_msg & r_flush & Hshape & He).
  rewrite Hevs in Hshape.
  change (pre ++ [Call (c_vfprintf "Unable to install SIGALRM handler: %s") r_msg;
                  Call c_fflush r_flush; Halt (h_exit e)])
    with (pre ++ [Call (c_vfprintf "Unable to install SIGALRM handler: %s") r_msg;
                  Call c_fflush r_flush] ++ [Halt (h_exit e)]) in Hshape.
  change ([Call c_geteuid (Reply 0 0 0);
           Call (c_sigaction SIGALRM SA_RESTART) (Reply (-1) 0 EINVAL)] ++
          [Call (c_vfprintf "Unable to install SIGALRM handler: %s")
             (Reply 40 0 EINVAL);
           Call c_fflush (Reply (-1) 0 9); Halt (h_exit 9)])
    with ([Call c_geteuid (Reply 0 0 0);
           Call (c_sigaction SIGALRM SA_RESTART) (Reply (-1) 0 EINVAL);
           Call (c_vfprintf "Unable to install SIGALRM handler: %s")
             (Reply 40 0 EINVAL);
           Call c_fflush (Reply (-1) 0 9)] ++ [Halt (h_exit 9)]) in Hshape.
  rewrite app_assoc in Hshape.
  apply app_inj_tail in Hshape. destruct Hshape as [_ Hlast].
  injection Hlast as <-.
  exists s', evs. rewrite Hrun, Hres. reflexivity.
Defined.

(** X14, on a run: [fork] returns 77 to the parent. *)
Lemma main_supervises_forked_child_witness :
  exists res s' evs,
    main 5 [] ["/mnt"]
      (initial [Reply 0 0 0; Reply 0 0 0; Reply 0 0 0; Reply 77 0 0]) =
      (res, s', evs) /\
    Forall (waits_on 77) evs.
Proof.
  destruct (main_supervises_forked_child 5 [] "/mnt"
              (initial [Reply 0 0 0; Reply 0 0 0; Reply 0 0 0; Reply 77 0 0])
              (initial [Reply 0 0 0; Reply 0 0 0; Reply 0 0 0; Reply 77 0 0])
              (Locals identity_map 0 0 2) [] eq_refl)
    as (res & s' & evs & Hrun & Hafter).
  exists res, s', evs. split; [exact Hrun|].
  vm_compute in Hrun. injection Hrun as _ _ <-.
  destruct (Hafter (Reply 0 0 0) (Reply 0 0 0) (Reply 77 0 0) _ eq_refl)
    as [_ Hparent].
  destruct (Hparent ltac:(cbn; lia)) as (_ & _ & _ & _ & _ & _ & _ & _ & H).
  exact H.
Defined.

(** X15, on a run: [-h] alone, without a path. *)
Lemma help_exits_with_zero_witness :
  exists s' lines,
    main 5 [("h"%char, None)] [] (initial ([] : list reply)) =
      (Stop (Exited 0), s', [] ++ lines ++ [Halt (h_exit 0)]) /\
    length lines = 12%nat /\ Forall (fun e => is_printf e = true) lines.
Proof.
  apply (help_exits_with_zero 5 [] [] None [] (initial ([] : list reply))
           (initial []) (Locals identity_map 0 0 2) [] eq_refl).
Defined.

(** X16, on a run: the child is process 77 and [waitpid] fails with
    [ECHILD]; [-i 1] changes nothing. *)
Lemma waitpid_failure_is_not_translated_witness :
  parent 5 2 (<[1%nat := 0]> identity_map)
    (PState 1 77 0 [Reply 0 0 0; Reply (-1) 0 10]) =
    (Stop (Exited 1), PState 1 77 10 [],
     [Call (c_alarm 2) (Reply 0 0 0);
      Call (c_waitpid 77 0) (Reply (-1) 0 10);
      Halt (h_exit 1)]).
Proof.
  refine (proj2 (waitpid_failure_is_not_translated 5 2
                   (PState 1 77 0 [Reply 0 0 0; Reply (-1) 0 10])
                   (PState 1 77 10 []) (Exited 1)
                   [Call (c_alarm 2) (Reply 0 0 0);
                    Call (c_waitpid 77 0) (Reply (-1) 0 10);
                    Halt (h_exit 1)] _) _).
  vm_compute. reflexivity.
Defined.
